(** * Vehicle valuation engine: depreciation model and price calculator

    A shallow embedding of [automotive_lib/price_calculator.py] and the
    properties its specification states about it.

    Python's [float] arithmetic is kept abstract behind the interface
    [Number], and every function of the module is written once over that
    interface.  Two instances are given:

    - [Exact.number]: exact rational arithmetic on [Q], where [round] is
      rounding half to even at the given decimal place.  The arithmetic
      theorems are proved on this instance.
    - [Binary64.number]: IEEE-754 binary64 arithmetic on the kernel's
      primitive floats, where [round] follows CPython's correctly rounded
      [float.__round__].  Concrete runs are evaluated on this instance too.

    Theorems that do not depend on arithmetic laws are proved for every
    instance of the interface. *)

From Stdlib Require Import ZArith QArith Qround Qabs Lqa Lia Floats.
From Stdlib Require Import Ascii String.
From stdpp Require Import gmap strings pretty list sorting.

Local Open Scope Z_scope.

(** ** Python runtime: exceptions, ranges, dictionaries, strings *)

Module Py.

Inductive exn : Type :=
| ZeroDivisionError
| KeyError (key : string).

Inductive result (A : Type) : Type :=
| Ok (a : A)
| Raise (e : exn).
Arguments Ok {A} a.
Arguments Raise {A} e.

Definition bind {A B : Type} (r : result A) (k : A -> result B) : result B :=
  match r with
  | Ok a => k a
  | Raise e => Raise e
  end.

(** [for x in xs: acc = body(acc, x)], where the body may raise. *)
Fixpoint for_each {A S : Type} (body : S -> A -> result S) (xs : list A) (acc : S)
  : result S :=
  match xs with
  | [] => Ok acc
  | x :: xs' => bind (body acc x) (for_each body xs')
  end.

(** [range(lo, hi)]: empty when [hi <= lo]. *)
Definition range (lo hi : Z) : list Z := seqZ lo (hi - lo).

(** [d.get(key, default)] *)
Definition dict_get {K V : Type} `{Countable K} (d : gmap K V) (key : K) (dflt : V) : V :=
  match d !! key with
  | Some v => v
  | None => dflt
  end.

(** [d[key]] on a dictionary with string keys. *)
Definition getitem {V : Type} (d : gmap string V) (key : string) : result V :=
  match d !! key with
  | Some v => Ok v
  | None => Raise (KeyError key)
  end.

(** [str.lower()] on the ASCII range. *)
Definition lower_ascii (c : ascii) : ascii :=
  let n := N_of_ascii c in
  if ((65 <=? n) && (n <=? 90))%N then ascii_of_N (n + 32) else c.

Fixpoint lower (s : string) : string :=
  match s with
  | EmptyString => EmptyString
  | String c s' => String (lower_ascii c) (lower s')
  end.

End Py.
Export Py.

Notation "'let*' x ':=' r 'in' k" := (Py.bind r (fun x => k))
  (at level 10, x name, r at level 100, k at level 200).

(** ** The numeric interface *)

Class Number (F : Type) : Type := {
  (** an [int] taking part in float arithmetic *)
  of_int : Z -> F;
  fadd : F -> F -> F;
  fsub : F -> F -> F;
  fmul : F -> F -> F;
  (** [x / y] for a divisor that is not zero *)
  fdiv : F -> F -> F;
  feqb : F -> F -> bool;
  fltb : F -> F -> bool;
  (** the quotient [a / b] of two [int]s as a float, [b] not zero; it also
      is the value of the decimal literal [a / 10^k] *)
  int_quot : Z -> Z -> F;
  (** [round(x, ndigits)] *)
  round : nat -> F -> F;
  (** [format(x, "+.1f")] *)
  format_plus_1f : F -> string
}.

Declare Scope num_scope.
Delimit Scope num_scope with num.
Infix "+" := fadd : num_scope.
Infix "-" := fsub : num_scope.
Infix "*" := fmul : num_scope.

Section Engine.

Context {F : Type} {num : Number F}.

(** The decimal literal [m * 10^-k], e.g. [0.85] is [dec 85 2]. *)
Definition dec (m : Z) (k : nat) : F := int_quot m (10 ^ Z.of_nat k).

(** [x / y] on floats. *)
Definition truediv (x y : F) : result F :=
  if feqb y (of_int 0) then Raise ZeroDivisionError else Ok (fdiv x y).

(** [a / b] on ints. *)
Definition int_truediv (a b : Z) : result F :=
  if b =? 0 then Raise ZeroDivisionError else Ok (int_quot a b).

(** The builtins [max(a, b)] and [min(a, b)]: the first argument is kept
    unless the second compares strictly greater (smaller). *)
Definition py_max (a b : F) : F := if fltb a b then b else a.
Definition py_min (a b : F) : F := if fltb b a then b else a.

(** *** VehicleCondition *)

Inductive VehicleCondition : Type := EXCELLENT | GOOD | FAIR | POOR.

Definition value (c : VehicleCondition) : F :=
  match c with
  | EXCELLENT => dec 10 1
  | GOOD => dec 85 2
  | FAIR => dec 70 2
  | POOR => dec 50 2
  end.

(** *** DepreciationModel *)

Definition DEPRECIATION_RATES : gmap Z F :=
  {[ 1 := dec 20 2; 2 := dec 15 2; 3 := dec 12 2; 4 := dec 10 2; 5 := dec 8 2 ]}.

Record DepreciationModel : Type := {
  original_price : F;
  year : Z;
  age : Z
}.

(** [__init__]; [now] is [datetime.now().year]. *)
Definition DepreciationModel_init (now : Z) (original_price : F) (year : Z)
  : DepreciationModel :=
  {| original_price := original_price; year := year; age := now - year |}.

(** One pass of the loop body shared by both loops:
    [rate = RATES.get(year, 0.08); value *= (1 - rate)]. *)
Definition depreciate (value : F) (year : Z) : F :=
  let rate := dict_get DEPRECIATION_RATES year (dec 8 2) in
  (value * (of_int 1 - rate))%num.

Definition calculate_current_value (self : DepreciationModel) : F :=
  let value := foldl depreciate (original_price self) (range 1 (age self + 1)) in
  round 2 (py_max value (original_price self * dec 10 2)%num).

Definition schedule_step (self : DepreciationModel)
    (st : gmap Z F * F) (year : Z) : gmap Z F * F :=
  let '(schedule, value) := st in
  let value := depreciate value year in
  (<[ year := round 2 (py_max value (original_price self * dec 10 2)%num) ]> schedule,
   value).

Definition get_depreciation_schedule (self : DepreciationModel) : gmap Z F :=
  let schedule : gmap Z F := {[ 0 := original_price self ]} in
  let value := original_price self in
  fst (foldl (schedule_step self) (schedule, value)
             (range 1 (Z.min (age self + 6) 16))).

(** The running [value] of either loop after the pass for year [k], and
    the figure both methods derive from it: floored at 10% of the
    original price and rounded to cents. *)
Definition value_after (original_price : F) (k : Z) : F :=
  foldl depreciate original_price (range 1 (k + 1)).

Definition floored_value (self : DepreciationModel) (k : Z) : F :=
  round 2 (py_max (value_after (original_price self) k)
                  (original_price self * dec 10 2)%num).

Definition get_total_depreciation (self : DepreciationModel) : F :=
  round 2 (original_price self - calculate_current_value self)%num.

Definition get_depreciation_percentage (self : DepreciationModel) : result F :=
  let* q := truediv (get_total_depreciation self) (original_price self) in
  Ok (round 1 (q * of_int 100)%num).

(** *** PriceCalculator

    [__init__] only creates an empty list [adjustments] that no method
    reads or writes, so the methods are functions of their arguments and of
    the current year. *)

Definition MAKE_FACTORS : gmap string F :=
  {[ "toyota" := dec 110 2; "honda" := dec 108 2; "ford" := dec 100 2;
     "chevrolet" := dec 98 2; "bmw" := dec 115 2; "mercedes" := dec 120 2;
     "audi" := dec 112 2; "tesla" := dec 125 2; "default" := dec 100 2 ]}.

(** The dictionary returned by [calculate_market_value]; [value_score] is
    the key [compare_vehicles] adds to it afterwards. *)
Record valuation : Type := {
  vehicle : string;
  base_price : F;
  depreciated_value : F;
  make_adjustment : string;
  condition_adjustment : string;
  mileage_adjustment : string;
  estimated_value : F;
  depreciation_total : F;
  depreciation_percent : F;
  value_score : option F
}.

(** [MAKE_FACTORS.get(make.lower(), MAKE_FACTORS['default'])] *)
Definition make_factor_of (make : string) : result F :=
  let* dflt := getitem MAKE_FACTORS "default" in
  Ok (dict_get MAKE_FACTORS (lower make) dflt).

(** The mileage adjustment before it is capped. *)
Definition mileage_factor_of (age mileage : Z) : result F :=
  let expected_mileage := age * 12000 in
  let mileage_diff := expected_mileage - mileage in
  if 0 <? expected_mileage
  then let* q := int_truediv mileage_diff expected_mileage in
       Ok (of_int 1 + q * dec 1 1)%num
  else Ok (of_int 1).

(** [max(0.7, min(1.3, mileage_factor))] *)
Definition cap (mileage_factor : F) : F :=
  py_max (dec 7 1) (py_min (dec 13 1) mileage_factor).

(** [f"{(factor - 1) * 100:+.1f}%"] *)
Definition adjustment_label (factor : F) : string :=
  (format_plus_1f ((factor - of_int 1) * of_int 100)%num ++ "%")%string.

Definition calculate_market_value (now : Z) (make model : string) (year : Z)
    (base_price : F) (condition : VehicleCondition) (mileage : Z)
  : result valuation :=
  let depreciation_model := DepreciationModel_init now base_price year in
  let depreciated_value := calculate_current_value depreciation_model in
  let* make_factor := make_factor_of make in
  let condition_factor := value condition in
  let* mileage_factor := mileage_factor_of (age depreciation_model) mileage in
  let mileage_factor := cap mileage_factor in
  let final_value :=
    (depreciated_value * make_factor * condition_factor * mileage_factor)%num in
  let* percent := get_depreciation_percentage depreciation_model in
  Ok {| vehicle := (pretty year ++ " " ++ make ++ " " ++ model)%string;
        base_price := base_price;
        depreciated_value := depreciated_value;
        make_adjustment := adjustment_label make_factor;
        condition_adjustment := adjustment_label condition_factor;
        mileage_adjustment := adjustment_label mileage_factor;
        estimated_value := round 2 final_value;
        depreciation_total := get_total_depreciation depreciation_model;
        depreciation_percent := percent;
        value_score := None |}.

(** What [calculate_market_value] multiplies and rounds. *)
Definition market_value (now : Z) (make : string) (year : Z) (base_price : F)
    (condition : VehicleCondition) (mileage : Z) (mileage_factor : F) : F :=
  round 2 (calculate_current_value (DepreciationModel_init now base_price year)
           * dict_get MAKE_FACTORS (lower make) (dec 100 2)
           * value condition
           * cap mileage_factor)%num.

(** The default arguments [condition=GOOD] and [mileage=50000]. *)
Definition default_mileage : Z := 50000.

(** A vehicle as [compare_vehicles] reads it: the keys ['make'],
    ['model'], ['year'] and ['price']. *)
Record vehicle_input : Type := {
  v_make : string;
  v_model : string;
  v_year : Z;
  v_price : F
}.

Definition set_value_score (d : valuation) (score : F) : valuation :=
  {| vehicle := vehicle d;
     base_price := base_price d;
     depreciated_value := depreciated_value d;
     make_adjustment := make_adjustment d;
     condition_adjustment := condition_adjustment d;
     mileage_adjustment := mileage_adjustment d;
     estimated_value := estimated_value d;
     depreciation_total := depreciation_total d;
     depreciation_percent := depreciation_percent d;
     value_score := Some score |}.

(** The key function [lambda x: x['value_score']]. *)
Definition score_key (d : valuation) : result F :=
  match value_score d with
  | Some s => Ok s
  | None => Raise (KeyError "value_score")
  end.

(** The builtin [sorted]: a stable sort that compares keys with [<] only;
    with [reverse=True] the list is reversed before and after sorting,
    which keeps elements with equal keys in their original order. *)
Fixpoint insert_by {A : Type} (kx : F) (x : A) (l : list (F * A)) : list (F * A) :=
  match l with
  | [] => [(kx, x)]
  | (ky, y) :: l' =>
      if fltb ky kx then (ky, y) :: insert_by kx x l' else (kx, x) :: l
  end.

Fixpoint sort_keyed {A : Type} (l : list (F * A)) : list (F * A) :=
  match l with
  | [] => []
  | (kx, x) :: l' => insert_by kx x (sort_keyed l')
  end.

Fixpoint with_keys {A : Type} (key : A -> result F) (l : list A)
  : result (list (F * A)) :=
  match l with
  | [] => Ok []
  | x :: l' =>
      let* k := key x in
      let* kl := with_keys key l' in
      Ok ((k, x) :: kl)
  end.

Definition sorted {A : Type} (l : list A) (key : A -> result F) (reverse : bool)
  : result (list A) :=
  let* kl := with_keys key l in
  Ok (if reverse then rev (map snd (sort_keyed (rev kl))) else map snd (sort_keyed kl)).

(** The body of the loop of [compare_vehicles]. *)
Definition compare_step (now : Z) (results : list valuation) (v : vehicle_input)
  : result (list valuation) :=
  let* value_data :=
    calculate_market_value now (v_make v) (v_model v) (v_year v) (v_price v)
                           GOOD default_mileage in
  let* ratio := truediv (estimated_value value_data) (v_price v) in
  let value_data := set_value_score value_data (round 1 (ratio * of_int 100)%num) in
  Ok (results ++ [value_data]).

Definition compare_vehicles (now : Z) (vehicles : list vehicle_input)
  : result (list valuation) :=
  let* results := for_each (compare_step now) vehicles [] in
  sorted results score_key true.

(** An entry of the list [results] as derived from its vehicle, and the
    score it carries. *)
Definition scored_from (now : Z) (v : vehicle_input) (d : valuation) : Prop :=
  ∃ r, calculate_market_value now (v_make v) (v_model v) (v_year v) (v_price v)
                              GOOD default_mileage = Ok r ∧
       d = set_value_score r
             (round 1 (fdiv (estimated_value r) (v_price v) * of_int 100)%num).

Definition score_of (d : valuation) : F :=
  match value_score d with
  | Some s => s
  | None => of_int 0
  end.

Definition condition_map : gmap string VehicleCondition :=
  {[ "excellent" := EXCELLENT; "good" := GOOD; "fair" := FAIR; "poor" := POOR ]}.

Definition base_msrp : gmap string Z :=
  {[ "toyota" := 35000; "honda" := 32000; "ford" := 38000;
     "chevrolet" := 36000; "bmw" := 55000; "mercedes" := 60000;
     "audi" := 52000; "tesla" := 50000; "default" := 35000 ]}.

Record suggestion : Type := {
  suggested_min : F;
  suggested_price : F;
  suggested_max : F;
  condition_label : string;
  vehicle_age : Z
}.

Definition get_price_suggestion (now : Z) (make : string) (year : Z)
    (condition : string) : result suggestion :=
  let* dflt := getitem base_msrp "default" in
  let msrp := dict_get base_msrp (lower make) dflt in
  let cond := dict_get condition_map (lower condition) GOOD in
  let depreciation := DepreciationModel_init now (of_int msrp) year in
  let base_value := calculate_current_value depreciation in
  let adjusted_value := (base_value * value cond)%num in
  Ok {| suggested_min := round 2 (adjusted_value * dec 95 2)%num;
        suggested_price := round 2 adjusted_value;
        suggested_max := round 2 (adjusted_value * dec 105 2)%num;
        condition_label := condition;
        vehicle_age := age depreciation |}.

End Engine.

(** ** Exact decimal arithmetic *)

Module Exact.

(** The integer nearest to [q], a tie going to the even neighbour. *)
Definition round_half_even (q : Q) : Z :=
  let f := Qfloor q in
  match (q - inject_Z f ?= 1 # 2)%Q with
  | Lt => f
  | Gt => f + 1
  | Eq => if Z.even f then f else f + 1
  end.

Definition pow10 (n : nat) : positive := Z.to_pos (10 ^ Z.of_nat n).

Definition round_to (ndigits : nat) (x : Q) : Q :=
  round_half_even (x * inject_Z (Zpos (pow10 ndigits))) # pow10 ndigits.

Definition ltb (x y : Q) : bool :=
  match (x ?= y)%Q with
  | Lt => true
  | _ => false
  end.

(** Sign, integer part, point, one digit. *)
Definition tenths_label (negative : bool) (tenths : Z) : string :=
  ((if negative then "-" else "+")
     ++ pretty (tenths / 10) ++ "." ++ pretty (tenths mod 10))%string.

Definition signed_tenths (x : Q) : string :=
  tenths_label (ltb x 0) (round_half_even (Qabs x * 10)).


#[global] Instance number : Number Q := {|
  of_int := inject_Z;
  fadd := Qplus;
  fsub := Qminus;
  fmul := Qmult;
  fdiv := Qdiv;
  feqb := Qeq_bool;
  fltb := ltb;
  int_quot a b := (inject_Z a / inject_Z b)%Q;
  round := round_to;
  format_plus_1f := signed_tenths
|}.

End Exact.

(** ** IEEE-754 binary64 *)

Module Binary64.

(** The float nearest to an integer.  (CPython raises [OverflowError] for
    an integer beyond the binary64 range; such integers are outside this
    instance.) *)
Definition of_Z (z : Z) : float := SF2Prim (binary_normalize prec emax z 0 false).

(** An integer of any size as an unrounded float. *)
Definition exact_int (z : Z) : spec_float :=
  match z with
  | Z0 => S754_zero false
  | Zpos p => S754_finite false p 0
  | Zneg p => S754_finite true p 0
  end.

(** The float nearest to [a / b], as the true division of two [int]s
    and the reading of a decimal literal give it.  (CPython raises
    [OverflowError] where the quotient leaves the binary64 range; such
    operands are outside this instance.) *)
Definition quot (a b : Z) : float :=
  SF2Prim (SFdiv prec emax (exact_int a) (exact_int b)).

Definition pow2 (e : Z) : Q :=
  match e with
  | Z0 => 1
  | Zpos p => inject_Z (2 ^ Zpos p)
  | Zneg p => 1 # (2 ^ p)
  end.

(** The magnitude of a finite float as a rational; [None] for an
    infinity or a NaN. *)
Definition magnitude (x : float) : option Q :=
  match Prim2SF x with
  | S754_zero _ => Some 0%Q
  | S754_finite _ m e => Some (inject_Z (Zpos m) * pow2 e)%Q
  | S754_infinity _ => None
  | S754_nan => None
  end.

Definition sign_bit (x : float) : bool :=
  match Prim2SF x with
  | S754_zero s => s
  | S754_finite s _ _ => s
  | S754_infinity s => s
  | S754_nan => false
  end.

(** [float.__round__] with [ndigits]: infinities and NaN round to
    themselves; a finite float is rounded, on its exact value and half
    to even, to a decimal string with [ndigits] places, which is then
    read back as the nearest float. *)
Definition round_to (ndigits : nat) (x : float) : float :=
  match magnitude x with
  | None => x
  | Some q =>
      let scale := Zpos (Exact.pow10 ndigits) in
      let r := quot (Exact.round_half_even (q * inject_Z scale)) scale in
      if sign_bit x then PrimFloat.opp r else r
  end.

Definition signed_tenths (x : float) : string :=
  match magnitude x with
  | Some q => Exact.tenths_label (sign_bit x) (Exact.round_half_even (q * 10))
  | None =>
      match Prim2SF x with
      | S754_infinity true => "-inf"
      | S754_infinity false => "+inf"
      | _ => "+nan"
      end
  end.

#[global] Instance number : Number float := {|
  of_int := of_Z;
  fadd := PrimFloat.add;
  fsub := PrimFloat.sub;
  fmul := PrimFloat.mul;
  fdiv := PrimFloat.div;
  feqb := PrimFloat.eqb;
  fltb := PrimFloat.ltb;
  int_quot := quot;
  round := round_to;
  format_plus_1f := signed_tenths
|}.

End Binary64.

(** ** Sample inputs *)

Section Samples.

Context {F : Type} {num : Number F}.

Definition sample_vehicles : list vehicle_input :=
  [ {| v_make := "ford"; v_model := "Focus"; v_year := 2020; v_price := of_int 20000 |};
    {| v_make := "bmw"; v_model := "320i"; v_year := 2020; v_price := of_int 30000 |};
    {| v_make := "Ford"; v_model := "Fiesta"; v_year := 2020; v_price := of_int 10000 |};
    {| v_make := "tesla"; v_model := "3"; v_year := 2025; v_price := of_int 10000 |} ].


End Samples.

(** Unfolds the operations of the interface at [Exact.number]. *)
Ltac exact_ops :=
  cbn [of_int fadd fsub fmul fdiv feqb fltb int_quot round Exact.number] in *.

(** ** vehicle_manager.py: vehicles, their collection, and the analytics *)

(** The comparison [x <= y] of two floats, which the price filter needs. *)
Class NumberOrder (F : Type) : Type := {
  fleb : F -> F -> bool
}.

#[global] Instance exact_order : NumberOrder Q := {| fleb := Qle_bool |}.
#[global] Instance binary64_order : NumberOrder float := {| fleb := PrimFloat.leb |}.

Module Vehicles.

Section Library.

Context {F : Type} {num : Number F} {order : NumberOrder F}.

(** *** Vehicle *)

Record Vehicle : Type := {
  make : string;
  model : string;
  year : Z;
  price : F;
  description : string;
  created_at : Z
}.

(** [__init__]; [utcnow] is the instant [datetime.utcnow()] returns. *)
Definition Vehicle_init (utcnow : Z) (make model : string) (year : Z) (price : F)
    (description : string) : Vehicle :=
  {| make := make; model := model; year := year; price := price;
     description := description; created_at := utcnow |}.

(** [now] is [datetime.now().year]. *)
Definition get_age (now : Z) (self : Vehicle) : Z := now - year self.

Definition repr (self : Vehicle) : string :=
  ("Vehicle(" ++ pretty (year self) ++ " " ++ make self ++ " " ++ model self ++ ")")%string.

(** *** VehicleManager

    The state of a manager is its list [_vehicles]; a method that changes it
    returns the list afterwards beside its result. *)

(** What [add_vehicle] may be handed: a [Vehicle], or an object that is not
    one. *)
Inductive object : Type :=
| a_vehicle (v : Vehicle)
| not_a_vehicle.

Definition VehicleManager_init : list Vehicle := [].

Definition add_vehicle (self : list Vehicle) (vehicle : object)
  : bool * list Vehicle :=
  match vehicle with
  | a_vehicle v => (true, self ++ [v])
  | not_a_vehicle => (false, self)
  end.

(** [0 <= index < len(self._vehicles)] *)
Definition in_range (self : list Vehicle) (index : Z) : bool :=
  (0 <=? index) && (index <? Z.of_nat (length self)).

Definition remove_vehicle (self : list Vehicle) (index : Z)
  : option Vehicle * list Vehicle :=
  if in_range self index
  then (self !! Z.to_nat index, delete (Z.to_nat index) self)
  else (None, self).

Definition get_vehicle (self : list Vehicle) (index : Z) : option Vehicle :=
  if in_range self index then self !! Z.to_nat index else None.

Definition get_all_vehicles (self : list Vehicle) : list Vehicle := self.



Definition filter_by_price_range (self : list Vehicle) (min_price max_price : F)
  : list Vehicle :=
  List.filter (fun v => fleb min_price (price v) && fleb (price v) max_price) self.

Definition count (self : list Vehicle) : Z := Z.of_nat (length self).

(** *** VehicleAnalytics

    The analytics read dictionaries; a key may be absent, which is [None]
    here, and [d.get(key, default)] is [default_to]. *)

Record vehicle_dict : Type := {
  d_make : option string;
  d_model : option string;
  d_year : option Z;
  d_price : option F
}.

Definition default_to {A : Type} (dflt : A) (field : option A) : A :=
  match field with
  | Some a => a
  | None => dflt
  end.

(** [self.vehicles = vehicles or []]: [None] and the empty list both give
    the empty list. *)
Definition VehicleAnalytics_init (vehicles : option (list vehicle_dict))
  : list vehicle_dict :=
  match vehicles with
  | Some (v :: vs) => v :: vs
  | _ => []
  end.

Definition set_vehicles (self vehicles : list vehicle_dict) : list vehicle_dict :=
  vehicles.

(** The builtin [sum] over floats, from the [int] 0, left to right.
    (CPython from 3.12 on adds floats with a compensated sum; it agrees
    with this fold in exact arithmetic, where the sums are reasoned
    about.) *)
Definition sum_floats (xs : list F) : F := foldl fadd (of_int 0) xs.

Definition prices (self : list vehicle_dict) : list F :=
  map (fun v => default_to (of_int 0) (d_price v)) self.

Definition get_average_price (self : list vehicle_dict) : result F :=
  match self with
  | [] => Ok (dec 0 1)
  | _ :: _ =>
      let total := sum_floats (prices self) in
      let* mean := truediv total (of_int (Z.of_nat (length self))) in
      Ok (round 2 mean)
  end.

(** The builtins [min] and [max] over a list that is not empty: the first
    element is kept until a strictly smaller (greater) one comes. *)
Definition min_of (first : F) (rest : list F) : F :=
  foldl (fun least x => if fltb x least then x else least) first rest.
Definition max_of (first : F) (rest : list F) : F :=
  foldl (fun greatest x => if fltb greatest x then x else greatest) first rest.

Record price_range : Type := {
  range_min : F;
  range_max : F
}.

Definition get_price_range (self : list vehicle_dict) : price_range :=
  match self with
  | [] => {| range_min := of_int 0; range_max := of_int 0 |}
  | v :: vs =>
      let first := default_to (of_int 0) (d_price v) in
      {| range_min := min_of first (prices vs); range_max := max_of first (prices vs) |}
  end.

(** The counting loop [count[k] = count.get(k, 0) + 1]. *)
Definition tally {K : Type} `{Countable K} (keys : list K) : gmap K Z :=
  foldl (fun counts k => <[ k := dict_get counts k 0 + 1 ]> counts) ∅ keys.

(** How often a key stands in a list. *)
Definition occurrences {K : Type} `{EqDecision K} (k : K) (keys : list K) : Z :=
  Z.of_nat (length (List.filter (fun x => bool_decide (x = k)) keys)).

(** The order of the tuples [(key, count)] that [sorted] compares: by key,
    then by count. *)
Definition item_le {K : Type} (le : relation K) : relation (K * Z) :=
  fun a b => (a.1 ≠ b.1 ∧ le a.1 b.1) ∨ (a.1 = b.1 ∧ a.2 ≤ b.2).

#[global] Instance item_le_dec {K : Type} `{EqDecision K} (le : relation K)
    `{!RelDecision le} : RelDecision (item_le le).
Proof. intros a b. unfold item_le. apply _. Defined.

(** [dict(sorted(counts.items()))]: the items in ascending order, which is
    the order the resulting dictionary keeps. *)
Definition sorted_items {K : Type} `{Countable K} (le : relation K)
    `{!RelDecision le} (counts : gmap K Z) : list (K * Z) :=
  merge_sort (item_le le) (map_to_list counts).

Definition get_vehicles_by_year (self : list vehicle_dict) : list (Z * Z) :=
  sorted_items Z.le (tally (map (fun v => default_to 0 (d_year v)) self)).

Definition get_vehicles_by_make (self : list vehicle_dict) : list (string * Z) :=
  sorted_items String.le
    (tally (map (fun v => default_to "Unknown" (d_make v)) self)).

(** The builtin [sum] over ints. *)
Definition sum_ints (xs : list Z) : Z := foldl Z.add 0 xs.

(** The ages [get_average_age] adds up. *)
Definition ages (now : Z) (self : list vehicle_dict) : list Z :=
  map (fun v => now - default_to now (d_year v)) self.

Definition get_average_age (now : Z) (self : list vehicle_dict) : result F :=
  match self with
  | [] => Ok (dec 0 1)
  | _ :: _ =>
      let current_year := now in
      let total_age :=
        sum_ints (map (fun v => current_year - default_to current_year (d_year v)) self) in
      let* mean := int_truediv total_age (Z.of_nat (length self)) in
      Ok (round 1 mean)
  end.

Record summary : Type := {
  total_vehicles : Z;
  average_price : F;
  summary_price_range : price_range;
  average_age : F;
  by_make : list (string * Z);
  by_year : list (Z * Z)
}.

Definition get_summary (now : Z) (self : list vehicle_dict) : result summary :=
  let* average_price := get_average_price self in
  let* average_age := get_average_age now self in
  Ok {| total_vehicles := Z.of_nat (length self);
        average_price := average_price;
        summary_price_range := get_price_range self;
        average_age := average_age;
        by_make := get_vehicles_by_make self;
        by_year := get_vehicles_by_year self |}.

End Library.

End Vehicles.

(** * Properties *)

(** ** The two loops, for any arithmetic *)

Section Loops.

Context {F : Type} {num : Number F}.
Implicit Types (self : DepreciationModel (F:=F)) (k : Z).

Lemma range_empty lo hi : hi ≤ lo → range lo hi = [].
Proof. intros. unfold range. apply seqZ_nil. lia. Qed.

Lemma range_snoc lo hi : lo ≤ hi → range lo (hi + 1) = range lo hi ++ [hi].
Proof.
  intros. unfold range.
  replace (hi + 1 - lo) with ((hi - lo) + 1) by lia.
  rewrite seqZ_app by lia.
  replace (lo + (hi - lo)) with hi by lia. reflexivity.
Qed.

Lemma value_after_nonpos (p : F) k : k ≤ 0 → value_after p k = p.
Proof. intros. unfold value_after. rewrite range_empty by lia. reflexivity. Qed.

Lemma value_after_succ (p : F) k :
  0 ≤ k → value_after p (k + 1) = depreciate (value_after p k) (k + 1).
Proof.
  intros. unfold value_after.
  rewrite (range_snoc 1 (k + 1)) by lia. apply foldl_snoc.
Qed.

Lemma calculate_current_value_floored self :
  calculate_current_value self = floored_value self (age self).
Proof. reflexivity. Qed.

(** The state of the loop of [get_depreciation_schedule] after [n] passes. *)
Lemma schedule_loop self (n : nat) :
  let st := foldl (schedule_step self)
                  ({[ 0 := original_price self ]}, original_price self)
                  (range 1 (Z.of_nat n + 1)) in
  st.2 = value_after (original_price self) (Z.of_nat n) ∧
  ∀ k, st.1 !! k =
       if decide (k = 0) then Some (original_price self)
       else if decide (1 ≤ k ≤ Z.of_nat n) then Some (floored_value self k)
       else None.
Proof.
  induction n as [|n IH].
  - change (range 1 (Z.of_nat 0 + 1)) with (@nil Z).
    cbv beta iota zeta delta [foldl fst snd]. split; [reflexivity|]. intros k.
    destruct (decide (k = 0)) as [->|].
    + apply lookup_singleton_eq.
    + rewrite lookup_singleton_ne by done.
      destruct (decide _); [lia | reflexivity].
  - replace (Z.of_nat (S n) + 1) with ((Z.of_nat n + 1) + 1) by lia.
    rewrite range_snoc by lia. rewrite foldl_snoc.
    destruct (foldl _ _ (range 1 (Z.of_nat n + 1))) as [sched v].
    cbn in IH. destruct IH as [-> IH]. cbn.
    replace (Z.of_nat (S n)) with (Z.of_nat n + 1) by lia.
    rewrite <- value_after_succ by lia.
    split; [reflexivity|]. intros k.
    destruct (decide (k = Z.of_nat n + 1)) as [->|Hne].
    + rewrite lookup_insert_eq.
      destruct (decide _); [lia|]. destruct (decide _); [reflexivity | lia].
    + rewrite lookup_insert_ne by done. rewrite IH.
      destruct (decide (k = 0)); [reflexivity|].
      repeat destruct (decide _); try reflexivity; lia.
Qed.

Lemma schedule_lookup self k :
  get_depreciation_schedule self !! k =
    if decide (k = 0) then Some (original_price self)
    else if decide (1 ≤ k < Z.min (age self + 6) 16)
         then Some (floored_value self k)
         else None.
Proof.
  unfold get_depreciation_schedule. cbn zeta.
  destruct (decide (Z.min (age self + 6) 16 ≤ 1)) as [Hle|Hgt].
  - rewrite range_empty by lia. change (foldl _ ?a []) with a. cbv beta iota delta [fst].
    destruct (decide (k = 0)) as [->|].
    + apply lookup_singleton_eq.
    + rewrite lookup_singleton_ne by done.
      destruct (decide _); [lia | reflexivity].
  - pose proof (schedule_loop self (Z.to_nat (Z.min (age self + 6) 16 - 1))) as H.
    cbn zeta in H.
    replace (Z.of_nat (Z.to_nat (Z.min (age self + 6) 16 - 1)) + 1)
      with (Z.min (age self + 6) 16) in H by lia.
    destruct H as [_ H]. rewrite H.
    destruct (decide (k = 0)); [reflexivity|].
    repeat destruct (decide _); try reflexivity; lia.
Qed.

End Loops.

(** ** Rounding in exact arithmetic *)

Section Rounding.

Import Exact.
Local Open Scope Q_scope.

#[global] Instance round_half_even_proper : Proper (Qeq ==> eq) round_half_even.
Proof.
  intros q1 q2 Hq. unfold round_half_even.
  rewrite (Qfloor_comp _ _ Hq).
  assert (q1 - inject_Z (Qfloor q2) == q2 - inject_Z (Qfloor q2)) as ->
    by (rewrite Hq; reflexivity).
  reflexivity.
Qed.

Lemma round_half_even_choice q :
  round_half_even q = Qfloor q ∨ round_half_even q = (Qfloor q + 1)%Z.
Proof.
  unfold round_half_even.
  destruct (_ ?= _); [destruct (Z.even _)|..]; auto.
Qed.

Lemma round_half_even_near q :
  q - (1 # 2) <= inject_Z (round_half_even q) <= q + (1 # 2).
Proof.
  pose proof (Qfloor_le q) as Hlo. pose proof (Qlt_floor q) as Hhi.
  rewrite inject_Z_plus in Hhi. change (inject_Z 1) with 1 in Hhi.
  unfold round_half_even.
  destruct (Qcompare_spec (q - inject_Z (Qfloor q)) (1 # 2)) as [He|Hl|Hg].
  - destruct (Z.even _); [|rewrite inject_Z_plus; change (inject_Z 1) with 1]; lra.
  - lra.
  - rewrite inject_Z_plus. change (inject_Z 1) with 1. lra.
Qed.

Lemma round_half_even_mono q1 q2 :
  q1 <= q2 → (round_half_even q1 <= round_half_even q2)%Z.
Proof.
  intros Hle.
  pose proof (Qfloor_resp_le _ _ Hle) as Hfl.
  destruct (Z.eq_dec (Qfloor q1) (Qfloor q2)) as [Heq|Hne].
  - unfold round_half_even. rewrite Heq.
    destruct (Qcompare_spec (q1 - inject_Z (Qfloor q2)) (1 # 2));
      destruct (Qcompare_spec (q2 - inject_Z (Qfloor q2)) (1 # 2));
      try destruct (Z.even _); try lia; lra.
  - destruct (round_half_even_choice q1) as [->| ->];
      destruct (round_half_even_choice q2) as [->| ->]; lia.
Qed.

Lemma round_half_even_Z z : round_half_even (inject_Z z) = z.
Proof.
  unfold round_half_even. rewrite Qfloor_Z.
  destruct (Qcompare_spec (inject_Z z - inject_Z z) (1 # 2)); [lra | reflexivity | lra].
Qed.

Lemma round_to_scaled n x :
  round_to n x * inject_Z (Zpos (pow10 n))
  == inject_Z (round_half_even (x * inject_Z (Zpos (pow10 n)))).
Proof.
  unfold round_to. rewrite Qmake_Qdiv. field.
  intros H. discriminate H.
Qed.

#[global] Instance round_to_proper n : Proper (Qeq ==> Qeq) (round_to n).
Proof. intros x y Hxy. unfold round_to. rewrite Hxy. reflexivity. Qed.

Lemma round_to_mono n x y : x <= y → round_to n x <= round_to n y.
Proof.
  intros Hle. unfold round_to, Qle. cbn [Qnum Qden].
  apply Z.mul_le_mono_nonneg_r; [lia|].
  apply round_half_even_mono.
  apply Qmult_le_compat_r; [exact Hle | discriminate].
Qed.

(** Rounding to cents moves a value by at most half a cent. *)
Lemma round_cents_near x :
  x - (5 # 1000) <= round_to 2 x <= x + (5 # 1000).
Proof.
  pose proof (round_to_scaled 2 x) as Hs.
  pose proof (round_half_even_near (x * inject_Z (Zpos (pow10 2)))) as Hn.
  rewrite <- Hs in Hn. change (inject_Z (Zpos (pow10 2))) with 100 in Hn.
  lra.
Qed.

(** A whole number of cents is left as it is. *)
Lemma round_cents_fixed x (c : Z) : x == c # 100 → round_to 2 x == x.
Proof.
  intros Hx. rewrite Hx. unfold round_to.
  change (pow10 2) with 100%positive.
  assert ((c # 100) * inject_Z 100 == inject_Z c) as ->.
  { rewrite Qmake_Qdiv. field. }
  rewrite round_half_even_Z. reflexivity.
Qed.

End Rounding.

(** ** The depreciation model in exact arithmetic *)

Section Rates.

Context {F : Type} {num : Number F}.

(** The rate looked up for any year is one of the five of the table. *)
Lemma rate_cases (k : Z) :
  let rate := dict_get DEPRECIATION_RATES k (dec 8 2) in
  rate = dec 20 2 ∨ rate = dec 15 2 ∨ rate = dec 12 2 ∨ rate = dec 10 2
  ∨ rate = dec 8 2.
Proof.
  unfold dict_get, DEPRECIATION_RATES. cbn zeta.
  destruct (decide (k = 1)) as [->|]; [rewrite lookup_insert_eq; tauto|].
  rewrite lookup_insert_ne by done.
  destruct (decide (k = 2)) as [->|]; [rewrite lookup_insert_eq; tauto|].
  rewrite lookup_insert_ne by done.
  destruct (decide (k = 3)) as [->|]; [rewrite lookup_insert_eq; tauto|].
  rewrite lookup_insert_ne by done.
  destruct (decide (k = 4)) as [->|]; [rewrite lookup_insert_eq; tauto|].
  rewrite lookup_insert_ne by done.
  destruct (decide (k = 5)) as [->|]; [rewrite lookup_singleton_eq; tauto|].
  rewrite lookup_singleton_ne by done. tauto.
Qed.

End Rates.

Section ExactModel.

Import Exact.
Local Open Scope Q_scope.
Implicit Types (self : DepreciationModel (F:=Q)) (p v : Q) (k : Z).

Lemma ltb_lt x y : ltb x y = true ↔ x < y.
Proof.
  unfold ltb. destruct (Qcompare_spec x y) as [He|Hl|Hg]; split; intros H;
    try discriminate; try reflexivity; try assumption; lra.
Qed.

Lemma py_max_exact a b :
  (a < b ∧ py_max a b = b) ∨ (b <= a ∧ py_max a b = a).
Proof.
  unfold py_max. exact_ops.
  destruct (ltb a b) eqn:E.
  - left. split; [apply ltb_lt, E | reflexivity].
  - right. split; [|reflexivity].
    destruct (Qlt_le_dec a b) as [Hl|Hg]; [|exact Hg].
    apply ltb_lt in Hl. congruence.
Qed.

Lemma py_min_exact a b :
  (b < a ∧ py_min a b = b) ∨ (a <= b ∧ py_min a b = a).
Proof.
  unfold py_min. exact_ops.
  destruct (ltb b a) eqn:E.
  - left. split; [apply ltb_lt, E | reflexivity].
  - right. split; [|reflexivity].
    destruct (Qlt_le_dec b a) as [Hl|Hg]; [|exact Hg].
    apply ltb_lt in Hl. congruence.
Qed.

(** A year takes between 8% and 20% off a value that is not negative. *)
Lemma depreciate_bounds v k :
  0 <= v → (80 # 100) * v <= depreciate v k <= (92 # 100) * v.
Proof.
  intros Hv. unfold depreciate.
  destruct (rate_cases (F:=Q) k) as [H|[H|[H|[H|H]]]]; cbn zeta in H; rewrite H;
    exact_ops;
    [ change (dec 20 2) with (20 # 100) | change (dec 15 2) with (15 # 100)
    | change (dec 12 2) with (12 # 100) | change (dec 10 2) with (10 # 100)
    | change (dec 8 2) with (8 # 100) ];
    change (inject_Z 1) with 1; lra.
Qed.

Lemma depreciate_scales p v w k :
  w == p * v → depreciate w k == p * depreciate v k.
Proof.
  intros Hw. unfold depreciate. exact_ops. rewrite Hw. ring.
Qed.

Lemma foldl_depreciate_bounds (l : list Z) v :
  0 <= v → 0 <= foldl depreciate v l <= v.
Proof.
  revert v. induction l as [|k l IH]; intros v Hv; cbn [foldl].
  - lra.
  - pose proof (depreciate_bounds v k Hv) as Hd.
    assert (0 <= depreciate v k) as H0 by lra.
    specialize (IH _ H0). lra.
Qed.

Lemma foldl_depreciate_scales (l : list Z) p v w :
  w == p * v → foldl depreciate w l == p * foldl depreciate v l.
Proof.
  revert v w. induction l as [|k l IH]; intros v w Hw; cbn [foldl].
  - exact Hw.
  - apply IH, depreciate_scales, Hw.
Qed.

Lemma value_after_bounds p k : 0 <= p → 0 <= value_after p k <= p.
Proof. apply foldl_depreciate_bounds. Qed.

Lemma value_after_scales p k : value_after p k == p * value_after 1 k.
Proof. apply foldl_depreciate_scales. ring. Qed.

Lemma value_after_step p k :
  0 <= p → value_after p (k + 1) <= value_after p k.
Proof.
  intros Hp. destruct (Z_lt_le_dec k 0) as [Hk|Hk].
  - rewrite !value_after_nonpos by lia. lra.
  - rewrite value_after_succ by lia.
    pose proof (value_after_bounds p k Hp).
    pose proof (depreciate_bounds (value_after p k) (k + 1)). lra.
Qed.

Lemma value_after_mono p i j :
  0 <= p → (i ≤ j)%Z → value_after p j <= value_after p i.
Proof.
  intros Hp Hij.
  replace j with (i + Z.of_nat (Z.to_nat (j - i)))%Z by lia.
  induction (Z.to_nat (j - i)) as [|n IH].
  - replace (i + Z.of_nat 0)%Z with i by lia. lra.
  - replace (i + Z.of_nat (S n))%Z with ((i + Z.of_nat n) + 1)%Z by lia.
    pose proof (value_after_step p (i + Z.of_nat n) Hp). lra.
Qed.

(** The value before rounding: between 10% of the price and the price. *)
Lemma floored_between p v :
  0 < p → 0 <= v <= p →
  p * dec 10 2 <= py_max v (p * dec 10 2)%num <= p.
Proof.
  intros Hp Hv. exact_ops. change (dec 10 2) with (10 # 100).
  destruct (py_max_exact v (p * (10 # 100))) as [[H ->]|[H ->]]; lra.
Qed.

Lemma py_max_mono a a' b : a <= a' → py_max a b <= py_max a' b.
Proof.
  intros H.
  destruct (py_max_exact a b) as [[? ->]|[? ->]];
    destruct (py_max_exact a' b) as [[? ->]|[? ->]]; lra.
Qed.

Lemma floored_value_mono self i j :
  0 <= original_price self → (i ≤ j)%Z →
  floored_value self j <= floored_value self i.
Proof.
  intros Hp Hij. unfold floored_value. exact_ops.
  apply round_to_mono, py_max_mono, value_after_mono; assumption.
Qed.

End ExactModel.

(** ** DepreciationModel: current value, schedule, total *)

Section DepreciationClaims.

Import Exact.
Local Open Scope Q_scope.

(** A price of 30000 three years on: 30000 x 0.8 = 24000, x 0.85 = 20400,
    x 0.88 = 17952, in both arithmetics. *)
Example current_value_three_years (now : Z) :
  calculate_current_value (DepreciationModel_init now (30000 : Q) (now - 3))
  == 17952 ∧
  calculate_current_value (DepreciationModel_init now (of_int 30000 : float) (now - 3))
  = of_int 17952.
Proof.
  unfold calculate_current_value. cbn [age original_price DepreciationModel_init].
  replace (now - (now - 3))%Z with 3%Z by lia.
  split; vm_compute; reflexivity.
Qed.




(** C3, as amended.  For every positive [original_price], when the model
    year is the current year, [calculate_current_value()] equals
    [round(original_price, 2)]; it equals [original_price] exactly
    whenever that is a whole number of cents. *)
Theorem current_value_at_age_zero (now : Z) (p : Q) :
  0 < p →
  let v := calculate_current_value (DepreciationModel_init now p now) in
  v == round 2 p ∧ ∀ c : Z, p == c # 100 → v == p.
Proof.
  intros Hp v.
  assert (v = round 2 p) as Hv.
  { subst v. unfold calculate_current_value, DepreciationModel_init.
    cbn [age original_price].
    rewrite range_empty by lia. cbn [foldl].
    destruct (py_max_exact p (p * dec 10 2)%num) as [[H _]|[_ ->]]; [|reflexivity].
    exact_ops. change (dec 10 2) with (10 # 100) in H. lra. }
  rewrite Hv. split; [reflexivity|].
  intros c Hc. exact_ops. apply (round_cents_fixed p c Hc).
Qed.

Lemma current_value_at_age_zero_witness :
  0 < 30000 ∧
  let v := calculate_current_value (DepreciationModel_init 2026 30000 2026) in
  v == round 2 30000 ∧ ∀ c : Z, 30000 == c # 100 → v == 30000.
Proof.
  split; [reflexivity|].
  apply (current_value_at_age_zero 2026 30000). reflexivity.
Defined.

(** C3 as stated fails for a price with a third decimal: 99.999 in its
    model year is valued at 100.00.  The same holds in binary64
    arithmetic. *)
Lemma current_value_at_age_zero_counterexample :
  (let p : Q := dec 99999 3 in
   let v := calculate_current_value (DepreciationModel_init 2026 p 2026) in
   0 < p ∧ v == 100 ∧ ¬ (v == p)) ∧
  (let p : float := dec 99999 3 in
   let v := calculate_current_value (DepreciationModel_init 2026 p 2026) in
   fltb (of_int 0) p = true ∧ v = of_int 100 ∧ feqb v p = false).
Proof.
  repeat split; try reflexivity.
  vm_compute. discriminate.
Qed.


(** The retained fraction after fifteen years is above a fifth. *)
Lemma value_after_15 : 2 # 10 <= value_after (F:=Q) 1 15.
Proof. vm_compute. discriminate. Qed.

(** C2, as amended.  For every positive [original_price] and every model
    year, the schedule holds [original_price] at index 0, its values from
    index 1 on do not increase with the index, and none of them is below
    [round(original_price * 0.10, 2)].  When [original_price] is at least
    0.05, the values do not increase from index 0 on and none is below 10%
    of [original_price]. *)
Theorem schedule_invariant (now year : Z) (p : Q) :
  0 < p →
  let s := get_depreciation_schedule (DepreciationModel_init now p year) in
  s !! 0%Z = Some p ∧
  (∀ i j vi vj, (1 ≤ i ≤ j)%Z → s !! i = Some vi → s !! j = Some vj → vj <= vi) ∧
  (∀ i v, (1 ≤ i)%Z → s !! i = Some v → round 2 (p * dec 10 2)%num <= v) ∧
  (5 # 100 <= p →
   (∀ i j vi vj, (i ≤ j)%Z → s !! i = Some vi → s !! j = Some vj → vj <= vi) ∧
   (∀ i v, s !! i = Some v → p * (10 # 100) <= v)).
Proof.
  intros Hpos s. set (self := DepreciationModel_init now p year) in *.
  assert (0 <= original_price self) as Hp0 by (cbn; lra).
  assert (∀ k v, s !! k = Some v →
            (k = 0%Z ∧ v = p) ∨ ((1 ≤ k ≤ 15)%Z ∧ v = floored_value self k)) as Hs.
  { intros k v. subst s. rewrite schedule_lookup.
    destruct (decide (k = 0%Z)); [intros [= <-]; left; done|].
    destruct (decide _); [|discriminate].
    intros [= <-]. right. split; [lia | reflexivity]. }
  split; [subst s; rewrite schedule_lookup; reflexivity|].
  split; [|split].
  - intros i j vi vj Hij Hi Hj.
    destruct (Hs _ _ Hi) as [[-> ->]|[Hki ->]]; [lia|].
    destruct (Hs _ _ Hj) as [[-> ->]|[Hkj ->]]; [lia|].
    apply floored_value_mono; [exact Hp0 | lia].
  - intros i v Hi Hv.
    destruct (Hs _ _ Hv) as [[-> ->]|[Hki ->]]; [lia|].
    unfold floored_value. exact_ops. apply round_to_mono.
    cbn [original_price self DepreciationModel_init].
    destruct (py_max_exact (value_after p i) (p * dec 10 2)) as [[H ->]|[H ->]]; lra.
  - intros Hp.
    assert (∀ k, (1 ≤ k)%Z → floored_value self k <= p) as Hfirst.
    { intros k Hk.
      pose proof (floored_value_mono self 1 k Hp0 Hk) as Hm.
      assert (floored_value self 1 <= p); [|lra].
      unfold floored_value. exact_ops. cbn [original_price self DepreciationModel_init].
      assert (value_after p 1 == p * (80 # 100)) as Hv1.
      { rewrite value_after_scales. apply Qmult_comp; [reflexivity|].
        vm_compute. reflexivity. }
      destruct (py_max_exact (value_after p 1) (p * dec 10 2)) as [[H ->]|[H ->]];
        match goal with |- round_to 2 ?x <= _ => pose proof (round_cents_near x) end;
        change (dec 10 2) with (10 # 100) in *; lra. }
    assert (∀ k, (k ≤ 15)%Z → p * (10 # 100) <= floored_value self k) as Hfloor.
    { intros k Hk.
      pose proof (floored_value_mono self k 15 Hp0 Hk) as Hm.
      assert (p * (10 # 100) <= floored_value self 15); [|lra].
      unfold floored_value. exact_ops. cbn [original_price self DepreciationModel_init].
      pose proof (value_after_scales p 15) as Hsc.
      pose proof value_after_15 as H15.
      assert (p * (2 # 10) <= p * value_after 1 15) as Hmul.
      { apply Qmult_le_l; [lra | exact H15]. }
      destruct (py_max_exact (value_after p 15) (p * dec 10 2)) as [[H ->]|[H ->]];
        match goal with |- _ <= round_to 2 ?x => pose proof (round_cents_near x) end;
        change (dec 10 2) with (10 # 100) in *; lra. }
    split.
    + intros i j vi vj Hij Hi Hj.
      destruct (Hs _ _ Hi) as [[-> ->]|[Hki ->]];
        destruct (Hs _ _ Hj) as [[-> ->]|[Hkj ->]].
      * lra.
      * apply Hfirst. lia.
      * lia.
      * apply floored_value_mono; [exact Hp0 | exact Hij].
    + intros i v Hi.
      destruct (Hs _ _ Hi) as [[-> ->]|[Hki ->]]; [lra|].
      apply Hfloor. lia.
Qed.

Lemma schedule_invariant_witness :
  0 < 30000 ∧
  let s := get_depreciation_schedule (DepreciationModel_init 2026 30000 2023) in
  s !! 0%Z = Some 30000 ∧
  (∀ i j vi vj, (1 ≤ i ≤ j)%Z → s !! i = Some vi → s !! j = Some vj → vj <= vi) ∧
  (∀ i v, (1 ≤ i)%Z → s !! i = Some v → round 2 (30000 * dec 10 2)%num <= v) ∧
  (5 # 100 <= 30000 →
   (∀ i j vi vj, (i ≤ j)%Z → s !! i = Some vi → s !! j = Some vj → vj <= vi) ∧
   (∀ i v, s !! i = Some v → 30000 * (10 # 100) <= v)).
Proof.
  split; [reflexivity|].
  apply (schedule_invariant 2026 2023 30000). reflexivity.
Defined.

(** C2 as stated fails for prices of a few cents or less.  With a price of
    0.007 the entry of year 1 is 0.0056 rounded to 0.01, above the entry
    0.007 of year 0; with a price of 0.01 the entry of year 5 is 0.00, below
    the floor 0.001.  The same holds in binary64 arithmetic. *)
Lemma schedule_invariant_counterexample :
  (let p : Q := dec 7 3 in
   let s := get_depreciation_schedule (DepreciationModel_init 2026 p 2026) in
   0 < p ∧ ∃ v0 v1, s !! 0%Z = Some v0 ∧ s !! 1%Z = Some v1 ∧ ¬ (v1 <= v0)) ∧
  (let p : Q := dec 1 2 in
   let s := get_depreciation_schedule (DepreciationModel_init 2026 p 2026) in
   0 < p ∧ ∃ v5, s !! 5%Z = Some v5 ∧ ¬ (p * (10 # 100) <= v5)) ∧
  (let p : float := dec 7 3 in
   let s := get_depreciation_schedule (DepreciationModel_init 2026 p 2026) in
   fltb (of_int 0) p = true ∧
   ∃ v0 v1, s !! 0%Z = Some v0 ∧ s !! 1%Z = Some v1 ∧ fltb v0 v1 = true).
Proof.
  split; [|split].
  - split; [reflexivity|]. exists (7 # 1000), (1 # 100).
    repeat split; try (vm_compute; reflexivity). vm_compute. intros H. apply H. reflexivity.
  - split; [reflexivity|]. exists (0 # 100).
    repeat split; try (vm_compute; reflexivity). vm_compute. intros H. apply H. reflexivity.
  - split; [reflexivity|]. exists (dec 7 3), (dec 1 2).
    repeat split; vm_compute; reflexivity.
Qed.

End DepreciationClaims.

(** ** Exceptions and defaults, for any arithmetic *)

Section Defaults.

Context {F : Type} {num : Number F}.
Implicit Types (self : DepreciationModel (F:=F)).

Lemma truediv_raises (x y : F) :
  truediv x y = Raise ZeroDivisionError ↔ feqb y (of_int 0) = true.
Proof.
  unfold truediv. destruct (feqb y (of_int 0)); split; intros H;
    try reflexivity; discriminate.
Qed.

Lemma make_factor_default : getitem (MAKE_FACTORS (F:=F)) "default" = Ok (dec 100 2).
Proof. reflexivity. Qed.

Lemma make_factor_of_ok (make : string) :
  make_factor_of make = Ok (dict_get MAKE_FACTORS (lower make) (dec 100 2)).
Proof. unfold make_factor_of. rewrite make_factor_default. reflexivity. Qed.

(** The division of the mileage adjustment never sees a zero divisor. *)
Lemma mileage_factor_of_ok (age mileage : Z) :
  mileage_factor_of age mileage =
    Ok (if 0 <? age * 12000
        then (of_int 1
              + int_quot (age * 12000 - mileage) (age * 12000) * dec 1 1)%num
        else of_int 1).
Proof.
  unfold mileage_factor_of, int_truediv. cbn zeta.
  destruct (0 <? age * 12000) eqn:Hpos; [|reflexivity].
  apply Z.ltb_lt in Hpos.
  destruct (age * 12000 =? 0) eqn:Hz; [apply Z.eqb_eq in Hz; lia|].
  reflexivity.
Qed.


Lemma base_msrp_default : getitem base_msrp "default" = Ok 35000.
Proof. reflexivity. Qed.

End Defaults.

Section MarketValue.

Context {F : Type} {num : Number F}.

Lemma calculate_market_value_raises now make model year (bp : F) cond mileage :
  feqb bp (of_int 0) = true →
  calculate_market_value now make model year bp cond mileage
  = Raise ZeroDivisionError.
Proof.
  intros Hz. unfold calculate_market_value.
  rewrite make_factor_of_ok, mileage_factor_of_ok. cbn [bind].
  unfold get_depreciation_percentage, truediv.
  cbn [original_price DepreciationModel_init]. rewrite Hz. reflexivity.
Qed.

Lemma calculate_market_value_ok now make model year (bp : F) cond mileage :
  feqb bp (of_int 0) = false →
  ∃ r f, calculate_market_value now make model year bp cond mileage = Ok r ∧
         mileage_factor_of (now - year) mileage = Ok f ∧
         base_price r = bp ∧
         make_adjustment r
           = adjustment_label (dict_get MAKE_FACTORS (lower make) (dec 100 2)) ∧
         estimated_value r = market_value now make year bp cond mileage f ∧
         value_score r = None.
Proof.
  intros Hz. unfold calculate_market_value.
  rewrite make_factor_of_ok. cbn [age DepreciationModel_init].
  rewrite mileage_factor_of_ok. cbn [bind].
  unfold get_depreciation_percentage, truediv.
  cbn [original_price DepreciationModel_init]. rewrite Hz. cbn [bind].
  eexists _, _. repeat split; reflexivity.
Qed.

Lemma calculate_market_value_inv now make model year (bp : F) cond mileage r :
  calculate_market_value now make model year bp cond mileage = Ok r →
  feqb bp (of_int 0) = false.
Proof.
  intros Hr. destruct (feqb bp (of_int 0)) eqn:Hz; [|reflexivity].
  rewrite calculate_market_value_raises in Hr by exact Hz. discriminate.
Qed.

End MarketValue.

(** ** Claims that hold for any arithmetic *)

Section GenericClaims.

(** C10.  For every original price and every age from 1 to 15, the entry
    of [get_depreciation_schedule()] at the index equal to the age is the
    result of [calculate_current_value()]. *)
Theorem schedule_at_age_is_current_value
    {F : Type} {num : Number F} (now year : Z) (p : F) :
  1 ≤ now - year ≤ 15 →
  let self := DepreciationModel_init now p year in
  get_depreciation_schedule self !! age self = Some (calculate_current_value self).
Proof.
  intros Hage self. rewrite schedule_lookup.
  cbn [age self DepreciationModel_init].
  destruct (decide (now - year = 0)); [lia|].
  destruct (decide _); [reflexivity | lia].
Qed.

Lemma schedule_at_age_is_current_value_witness :
  1 ≤ 2026 - 2020 ≤ 15 ∧
  let self := DepreciationModel_init 2026 30000%Q 2020 in
  get_depreciation_schedule self !! age self = Some (calculate_current_value self).
Proof.
  split; [lia|].
  apply (schedule_at_age_is_current_value 2026 2020 30000%Q). lia.
Defined.

(** C8.  [get_depreciation_percentage()] raises [ZeroDivisionError] exactly
    when [original_price] compares equal to zero, and raises nothing else;
    for every other price it returns the total depreciation divided by
    the price, times 100, rounded to one decimal.  In exact arithmetic
    the test is [original_price == 0]. *)
Theorem depreciation_percentage_raises_iff_zero :
  (∀ (F : Type) (num : Number F) (self : DepreciationModel (F:=F)),
     (get_depreciation_percentage self = Raise ZeroDivisionError
      ↔ feqb (original_price self) (of_int 0) = true) ∧
     (feqb (original_price self) (of_int 0) = false →
      get_depreciation_percentage self
      = Ok (round 1 (fdiv (get_total_depreciation self) (original_price self)
                     * of_int 100)%num)) ∧
     (∀ e, get_depreciation_percentage self = Raise e → e = ZeroDivisionError)) ∧
  (∀ self : DepreciationModel (F:=Q),
     get_depreciation_percentage self = Raise ZeroDivisionError
     ↔ (original_price self == 0)%Q).
Proof.
  assert (∀ (F : Type) (num : Number F) (self : DepreciationModel (F:=F)),
            get_depreciation_percentage self = Raise ZeroDivisionError
            ↔ feqb (original_price self) (of_int 0) = true) as Hiff.
  { intros F num self. unfold get_depreciation_percentage, truediv.
    destruct (feqb _ _); cbn [bind]; split; intros H;
      try reflexivity; discriminate. }
  split.
  - intros F num self. split; [apply Hiff|]. split.
    + intros Hz. unfold get_depreciation_percentage, truediv.
      rewrite Hz. reflexivity.
    + intros e. unfold get_depreciation_percentage, truediv.
      destruct (feqb _ _); cbn [bind]; intros [= <-]. reflexivity.
  - intros self. rewrite Hiff. exact_ops. apply Qeq_bool_iff.
Qed.

(** C9.  Unknown inputs fall back on defaults without an exception.  A
    make whose lower-cased form is not a key of [MAKE_FACTORS] gets the
    factor 1.00 in [calculate_market_value], which then raises no
    [KeyError]; a condition whose lower-cased form is not a grade name is
    valued as [GOOD], multiplier 0.85, by [get_price_suggestion], which
    returns. *)
Theorem unknown_inputs_use_defaults {F : Type} {num : Number F} :
  (∀ make : string,
     MAKE_FACTORS (F:=F) !! lower make = None →
     make_factor_of make = Ok (dec 100 2)) ∧
  (∀ now make model year (bp : F) cond mileage,
     MAKE_FACTORS (F:=F) !! lower make = None →
     (∀ k, calculate_market_value now make model year bp cond mileage
           ≠ Raise (KeyError k)) ∧
     (∀ r, calculate_market_value now make model year bp cond mileage = Ok r →
           make_adjustment r = adjustment_label (dec 100 2) ∧
           ∃ f, mileage_factor_of (now - year) mileage = Ok f ∧
                estimated_value r
                = round 2 (calculate_current_value
                             (DepreciationModel_init now bp year)
                           * dec 100 2 * value cond * cap f)%num)) ∧
  (∀ now make year condition,
     condition_map !! lower condition = None →
     dict_get condition_map (lower condition) GOOD = GOOD ∧
     value (F:=F) GOOD = dec 85 2 ∧
     let base := calculate_current_value
                   (DepreciationModel_init now
                      (of_int (dict_get base_msrp (lower make) 35000)) year) in
     get_price_suggestion now make year condition
     = Ok {| suggested_min := round 2 (base * dec 85 2 * dec 95 2)%num;
             suggested_price := round 2 (base * dec 85 2)%num;
             suggested_max := round 2 (base * dec 85 2 * dec 105 2)%num;
             condition_label := condition;
             vehicle_age := now - year |}).
Proof.
  assert (∀ make : string,
            MAKE_FACTORS (F:=F) !! lower make = None →
            dict_get MAKE_FACTORS (lower make) (dec 100 2) = dec 100 2) as Hget.
  { intros make Hm. unfold dict_get. rewrite Hm. reflexivity. }
  split; [|split].
  - intros make Hm. rewrite make_factor_of_ok, Hget by exact Hm. reflexivity.
  - intros now make model year bp cond mileage Hm. split.
    + intros k Hk. destruct (feqb bp (of_int 0)) eqn:Hz.
      * rewrite calculate_market_value_raises in Hk by exact Hz. discriminate.
      * destruct (calculate_market_value_ok now make model year bp cond mileage Hz)
          as (r & f & Hr & _). congruence.
    + intros r Hr.
      pose proof (calculate_market_value_inv _ _ _ _ _ _ _ _ Hr) as Hz.
      destruct (calculate_market_value_ok now make model year bp cond mileage Hz)
        as (r' & f & Hr' & Hf & _ & Hadj & Hest & _).
      assert (r' = r) as -> by congruence.
      rewrite Hadj, Hest. unfold market_value. rewrite Hget by exact Hm.
      split; [reflexivity|]. exists f. split; [exact Hf | reflexivity].
  - intros now make year condition Hc.
    assert (dict_get condition_map (lower condition) GOOD = GOOD) as Hgood.
    { unfold dict_get. rewrite Hc. reflexivity. }
    split; [exact Hgood|]. split; [reflexivity|].
    cbn zeta. unfold get_price_suggestion.
    rewrite base_msrp_default. cbn [bind]. rewrite Hgood. reflexivity.
Qed.

End GenericClaims.

(** ** PriceCalculator in exact arithmetic *)

Section PriceClaims.

Import Exact.
Local Open Scope Q_scope.



(** C5.  [get_price_suggestion('toyota', current_year - 1, 'good')]: the
    MSRP is 35000, one year at rate 0.20 leaves 28000, the multiplier 0.85 of
    [GOOD] gives 23800, and the result is [suggested_price] 23800.0,
    [suggested_min] 22610.0 and [suggested_max] 24990.0, in exact and in
    binary64 arithmetic alike. *)
Theorem price_suggestion_toyota_last_year (now : Z) :
  (dict_get base_msrp (lower "toyota") 35000%Z = 35000%Z ∧
   dict_get (DEPRECIATION_RATES (F:=Q)) 1%Z (dec 8 2) == 20 # 100 ∧
   calculate_current_value (DepreciationModel_init now (of_int 35000) (now - 1))
   == 28000 ∧
   dict_get condition_map (lower "good") GOOD = GOOD ∧
   value (F:=Q) GOOD == 85 # 100 ∧
   28000 * (85 # 100) == 23800) ∧
  (∃ r : suggestion (F:=Q),
     get_price_suggestion now "toyota" (now - 1) "good" = Ok r ∧
     suggested_price r == 23800 ∧
     suggested_min r == 22610 ∧
     suggested_max r == 24990 ∧
     vehicle_age r = 1%Z) ∧
  get_price_suggestion (F:=float) now "toyota" (now - 1) "good"
  = Ok {| suggested_min := of_int 22610;
          suggested_price := of_int 23800;
          suggested_max := of_int 24990;
          condition_label := "good";
          vehicle_age := 1 |}.
Proof.
  assert (now - (now - 1) = 1)%Z as Hage by lia.
  split; [|split].
  - repeat split; try reflexivity.
    unfold calculate_current_value.
    cbn [age original_price DepreciationModel_init]. rewrite Hage.
    vm_compute. reflexivity.
  - unfold get_price_suggestion, calculate_current_value.
    cbn [age original_price DepreciationModel_init bind]. rewrite Hage.
    eexists. split; [reflexivity|].
    repeat split; vm_compute; reflexivity.
  - unfold get_price_suggestion, calculate_current_value.
    cbn [age original_price DepreciationModel_init bind]. rewrite Hage.
    vm_compute. reflexivity.
Qed.

End PriceClaims.

(** ** The stable sort of [sorted], in exact arithmetic *)

Section ExactSort.

Import Exact.
Local Open Scope Q_scope.
Context {A : Type}.
Implicit Types (l : list (Q * A)) (k s : Q) (x : A).










End ExactSort.

(** ** compare_vehicles *)

Section Ranking.

Context {F : Type} {num : Number F}.

Lemma scored_from_key now (v : vehicle_input (F:=F)) d :
  scored_from now v d → score_key d = Ok (score_of d).
Proof. intros (r & _ & ->). reflexivity. Qed.

(** The loop of [compare_vehicles] over vehicles whose price is not zero. *)
Lemma compare_loop now (vehicles : list (vehicle_input (F:=F))) acc :
  Forall (λ v, feqb (v_price v) (of_int 0) = false) vehicles →
  ∃ ds, for_each (compare_step now) vehicles acc = Ok (acc ++ ds) ∧
        Forall2 (scored_from now) vehicles ds.
Proof.
  intros Hall. revert acc.
  induction Hall as [|v vs Hv _ IH]; intros acc; cbn [for_each].
  - exists []. rewrite app_nil_r. split; [reflexivity | constructor].
  - destruct (calculate_market_value_ok now (v_make v) (v_model v) (v_year v)
                (v_price v) GOOD default_mileage Hv) as (r & f & Hr & _).
    unfold compare_step at 1. rewrite Hr. cbn [bind].
    unfold truediv. rewrite Hv. cbn [bind].
    destruct (IH (acc ++ [set_value_score r
                    (round 1 (fdiv (estimated_value r) (v_price v)
                              * of_int 100)%num)])) as (ds & Hds & Hrel).
    rewrite Hds. eexists (_ :: ds). split.
    + rewrite <- app_assoc. reflexivity.
    + constructor; [|exact Hrel]. exists r. split; [exact Hr | reflexivity].
Qed.

End Ranking.

Section RankingClaim.

Import Exact.
Local Open Scope Q_scope.



(** The run on the sample, in both arithmetics: the two Fords tie at 39.9
    and keep their input order. *)
Example compare_vehicles_run :
  ((let* ranked := compare_vehicles (F:=Q) 2026 sample_vehicles in
    Ok (map vehicle ranked))
   = Ok ["2025 tesla 3"; "2020 bmw 320i"; "2020 ford Focus"; "2020 Ford Fiesta"]) ∧
  ((let* ranked := compare_vehicles (F:=float) 2026 sample_vehicles in
    Ok (map vehicle ranked))
   = Ok ["2025 tesla 3"; "2020 bmw 320i"; "2020 ford Focus"; "2020 Ford Fiesta"]).
Proof. split; vm_compute; reflexivity. Qed.


End RankingClaim.

(** * Further properties *)

(** ** The depreciation model over the years *)

Section ScheduleYears.

Context {F : Type} {num : Number F}.

(** X1.  The schedule has an entry for year [k] exactly when
    [0 <= k <= min(age + 5, 15)], and for year 0 alone when that bound is
    negative (a model year more than five years ahead). *)
Theorem schedule_years (now year : Z) (p : F) (k : Z) :
  is_Some (get_depreciation_schedule (DepreciationModel_init now p year) !! k)
  ↔ 0 ≤ k ≤ Z.max 0 (Z.min (now - year + 5) 15).
Proof.
  rewrite schedule_lookup. cbn [age DepreciationModel_init].
  destruct (decide (k = 0)) as [->|Hk].
  - split; [lia | eauto].
  - destruct (decide (1 ≤ k < Z.min (now - year + 6) 16)) as [Hin|Hout].
    + split; [lia | eauto].
    + split; [intros [? [=]] | lia].
Qed.

(** X2.  The entry of the schedule for a year [k >= 1] is the value
    [calculate_current_value()] gives a vehicle of the same price that is
    [k] years old. *)
Theorem schedule_entry_is_value_at_that_age (now year : Z) (p : F) (k : Z) :
  1 ≤ k ≤ Z.min (now - year + 5) 15 →
  get_depreciation_schedule (DepreciationModel_init now p year) !! k
  = Some (calculate_current_value (DepreciationModel_init now p (now - k))).
Proof.
  intros Hk. rewrite schedule_lookup. cbn [age DepreciationModel_init].
  destruct (decide (k = 0)); [lia|].
  destruct (decide _); [|lia].
  unfold calculate_current_value, floored_value, value_after.
  cbn [age original_price DepreciationModel_init].
  replace (now - (now - k)) with k by lia. reflexivity.
Qed.

(** X3.  A model year in the future is valued like the current year: the
    current value, the total depreciation and the percentage are those of
    a vehicle of age 0. *)
Theorem future_model_year_as_current (now year : Z) (p : F) :
  now ≤ year →
  let future := DepreciationModel_init now p year in
  let current := DepreciationModel_init now p now in
  calculate_current_value future = calculate_current_value current ∧
  get_total_depreciation future = get_total_depreciation current ∧
  get_depreciation_percentage future = get_depreciation_percentage current.
Proof.
  intros Hle future current.
  assert (calculate_current_value future = calculate_current_value current) as Hv.
  { unfold calculate_current_value, future, current.
    cbn [age original_price DepreciationModel_init].
    rewrite !range_empty by lia. reflexivity. }
  assert (get_total_depreciation future = get_total_depreciation current) as Ht.
  { unfold get_total_depreciation. rewrite Hv. reflexivity. }
  split; [exact Hv|]. split; [exact Ht|].
  unfold get_depreciation_percentage. rewrite Ht. reflexivity.
Qed.

End ScheduleYears.

Lemma schedule_entry_is_value_at_that_age_witness :
  1 ≤ 5 ≤ Z.min (2026 - 2023 + 5) 15 ∧
  get_depreciation_schedule (DepreciationModel_init 2026 30000%Q 2023) !! 5
  = Some (calculate_current_value (DepreciationModel_init 2026 30000%Q (2026 - 5))).
Proof.
  split; [lia|].
  apply (schedule_entry_is_value_at_that_age 2026 2023 30000%Q 5). lia.
Defined.

Lemma future_model_year_as_current_witness :
  2026 ≤ 2028 ∧
  let future := DepreciationModel_init 2026 30000%Q 2028 in
  let current := DepreciationModel_init 2026 30000%Q 2026 in
  calculate_current_value future = calculate_current_value current ∧
  get_total_depreciation future = get_total_depreciation current ∧
  get_depreciation_percentage future = get_depreciation_percentage current.
Proof.
  split; [lia|].
  apply (future_model_year_as_current 2026 2028 30000%Q). lia.
Defined.

Section DepreciationOverTime.

Import Exact.
Local Open Scope Q_scope.



Lemma round_to_nonneg n x : 0 <= x → 0 <= round_to n x.
Proof.
  intros Hx. pose proof (round_to_mono n 0 x Hx) as H.
  assert (round_to n 0 == 0) as H0.
  { unfold round_to. rewrite Qmult_0_l.
    change 0 with (inject_Z 0) at 1. rewrite round_half_even_Z. reflexivity. }
  lra.
Qed.

Lemma current_value_nonneg (self : DepreciationModel (F:=Q)) :
  0 <= original_price self → 0 <= calculate_current_value self.
Proof.
  intros Hp. unfold calculate_current_value. exact_ops. apply round_to_nonneg.
  pose proof (value_after_bounds (original_price self) (age self) Hp) as Hv.
  unfold value_after in Hv.
  match goal with
  | |- _ <= py_max ?a ?b => destruct (py_max_exact a b) as [[? ->]|[? ->]]
  end; change (dec 10 2) with (10 # 100) in *; lra.
Qed.

(** X4.  With the price fixed, an older vehicle is never valued above a
    younger one. *)
Theorem older_is_never_worth_more (now older younger : Z) (p : Q) :
  0 <= p → (older ≤ younger)%Z →
  calculate_current_value (DepreciationModel_init now p older)
  <= calculate_current_value (DepreciationModel_init now p younger).
Proof.
  intros Hp Hle.
  pose proof (floored_value_mono (DepreciationModel_init now p younger)
                (now - younger) (now - older) Hp) as H.
  apply H. lia.
Qed.

Lemma older_is_never_worth_more_witness :
  0 <= 30000 ∧ (2015 ≤ 2023)%Z ∧
  calculate_current_value (DepreciationModel_init 2026 30000 2015)
  <= calculate_current_value (DepreciationModel_init 2026 30000 2023).
Proof.
  split; [discriminate|]. split; [lia|].
  apply (older_is_never_worth_more 2026 2015 2023 30000); [discriminate | lia].
Defined.

Lemma value_after_24 : 1 # 10 < value_after (F:=Q) 1 24.
Proof. vm_compute. reflexivity. Qed.

Lemma value_after_25 : value_after (F:=Q) 1 25 < 1 # 10.
Proof. vm_compute. reflexivity. Qed.

(** X5.  The 10% floor takes over at 25 years.  For a positive price, up
    to 24 years the current value is the depreciated value rounded to
    cents; from 25 years on it is 10% of the price rounded to cents,
    whatever the age. *)
Theorem floor_reached_at_25_years (now year : Z) (p : Q) :
  0 < p →
  let self := DepreciationModel_init now p year in
  ((now - year ≤ 24)%Z →
   calculate_current_value self == round 2 (value_after p (now - year))) ∧
  ((25 ≤ now - year)%Z →
   calculate_current_value self == round 2 (p * dec 10 2)%num).
Proof.
  intros Hp self. assert (0 <= p) as Hp0 by lra.
  unfold calculate_current_value. cbn [age original_price self DepreciationModel_init].
  fold (value_after p (now - year)). exact_ops.
  change (dec 10 2) with (10 # 100).
  split; intros Hage.
  - pose proof (value_after_mono p (now - year) 24 Hp0 Hage) as Hm.
    pose proof (value_after_scales p 24) as Hs. pose proof value_after_24 as H24.
    assert (p * (1 # 10) < p * value_after 1 24) as Hlt.
    { apply Qmult_lt_l; assumption. }
    destruct (py_max_exact (value_after p (now - year)) (p * (10 # 100)))
      as [[H ->]|[H ->]]; [lra | reflexivity].
  - pose proof (value_after_mono p 25 (now - year) Hp0 Hage) as Hm.
    pose proof (value_after_scales p 25) as Hs. pose proof value_after_25 as H25.
    assert (p * value_after 1 25 < p * (1 # 10)) as Hlt.
    { apply Qmult_lt_l; assumption. }
    destruct (py_max_exact (value_after p (now - year)) (p * (10 # 100)))
      as [[H ->]|[H ->]]; [reflexivity | lra].
Qed.

Lemma floor_reached_at_25_years_witness :
  0 < 30000 ∧
  let self := DepreciationModel_init 2026 30000 1996 in
  ((2026 - 1996 ≤ 24)%Z →
   calculate_current_value self == round 2 (value_after 30000 (2026 - 1996))) ∧
  ((25 ≤ 2026 - 1996)%Z →
   calculate_current_value self == round 2 (30000 * dec 10 2)%num).
Proof.
  split; [reflexivity|].
  apply (floor_reached_at_25_years 2026 1996 30000). reflexivity.
Defined.





End DepreciationOverTime.

(** ** The market value and its factors *)

Ltac table_key k key :=
  destruct (decide (k = key)) as [->|?];
  [ rewrite ?lookup_insert_eq, ?lookup_singleton_eq
  | rewrite ?(lookup_insert_ne _ key k), ?(lookup_singleton_ne key k) by done ].

Section MarketValueErrors.

Context {F : Type} {num : Number F}.

Lemma calculate_market_value_returns
    (now : Z) (make model : string) (year : Z) (bp : F)
    (cond : VehicleCondition) (mileage : Z) :
  feqb bp (of_int 0) = false →
  let self := DepreciationModel_init now bp year in
  ∃ r, calculate_market_value now make model year bp cond mileage = Ok r ∧
       vehicle r = (pretty year ++ " " ++ make ++ " " ++ model)%string ∧
       base_price r = bp ∧
       depreciated_value r = calculate_current_value self ∧
       depreciation_total r = get_total_depreciation self ∧
       get_depreciation_percentage self = Ok (depreciation_percent r) ∧
       value_score r = None.
Proof.
  intros Hz self. unfold calculate_market_value.
  rewrite make_factor_of_ok, mileage_factor_of_ok. cbn [bind].
  fold self. unfold get_depreciation_percentage, truediv.
  cbn [original_price self DepreciationModel_init]. rewrite Hz. cbn [bind].
  eexists. split; [reflexivity|]. cbn. repeat split; reflexivity.
Qed.


(** X9.  For a model year that is the current year or later the mileage
    plays no part: [calculate_market_value] gives the same outcome for any
    two mileages. *)
Theorem mileage_ignored_in_model_year
    (now : Z) (make model : string) (year : Z) (bp : F)
    (cond : VehicleCondition) (mileage mileage' : Z) :
  now ≤ year →
  calculate_market_value now make model year bp cond mileage
  = calculate_market_value now make model year bp cond mileage'.
Proof.
  intros Hle. unfold calculate_market_value.
  cbn [age DepreciationModel_init]. rewrite !mileage_factor_of_ok.
  destruct (0 <? (now - year) * 12000) eqn:Hpos; [|reflexivity].
  apply Z.ltb_lt in Hpos. lia.
Qed.

Lemma with_keys_ok {A : Type} (key : A → result F) (score : A → F) (xs : list A) :
  Forall (λ x, key x = Ok (score x)) xs →
  with_keys key xs = Ok (map (λ x, (score x, x)) xs).
Proof.
  induction 1 as [|x xs Hx _ IH]; cbn [with_keys map]; [reflexivity|].
  rewrite Hx, IH. reflexivity.
Qed.

Lemma insert_by_length {A : Type} (k : F) (x : A) l :
  length (insert_by k x l) = S (length l).
Proof.
  induction l as [|[ky y] l IH]; cbn [insert_by]; [reflexivity|].
  destruct (fltb ky k); cbn [length]; [rewrite IH|]; reflexivity.
Qed.

Lemma sort_keyed_length {A : Type} (l : list (F * A)) :
  length (sort_keyed l) = length l.
Proof.
  induction l as [|[k x] l IH]; cbn [sort_keyed]; [reflexivity|].
  rewrite insert_by_length, IH. reflexivity.
Qed.

Lemma compare_loop_raises now (vehicles : list (vehicle_input (F:=F))) acc :
  Exists (λ v, feqb (v_price v) (of_int 0) = true) vehicles →
  for_each (compare_step now) vehicles acc = Raise ZeroDivisionError.
Proof.
  revert acc. induction vehicles as [|v vs IH]; intros acc Hex.
  - inversion Hex.
  - cbn [for_each]. unfold compare_step at 1.
    destruct (feqb (v_price v) (of_int 0)) eqn:Hv.
    + rewrite calculate_market_value_raises by exact Hv. reflexivity.
    + destruct (calculate_market_value_ok now (v_make v) (v_model v) (v_year v)
                  (v_price v) GOOD default_mileage Hv) as (r & f & -> & _).
      cbn [bind]. unfold truediv. rewrite Hv. cbn [bind]. apply IH.
      apply Exists_cons in Hex as [Hex|Hex]; [congruence | exact Hex].
Qed.

(** X10.  [compare_vehicles] raises [ZeroDivisionError] exactly when some
    vehicle of the list has a price that compares equal to zero, however
    many valid vehicles stand before it; otherwise it returns a list as
    long as its input, so the empty list for the empty list. *)
Theorem compare_vehicles_raises_iff_zero_price
    (now : Z) (vehicles : list (vehicle_input (F:=F))) :
  (compare_vehicles now vehicles = Raise ZeroDivisionError
   ↔ Exists (λ v, feqb (v_price v) (of_int 0) = true) vehicles) ∧
  (∀ e, compare_vehicles now vehicles = Raise e → e = ZeroDivisionError) ∧
  (∀ ranked, compare_vehicles now vehicles = Ok ranked →
             length ranked = length vehicles).
Proof.
  destruct (decide (Exists (λ v, feqb (v_price v) (of_int 0) = true) vehicles))
    as [Hex|Hnone].
  - unfold compare_vehicles. rewrite compare_loop_raises by exact Hex. cbn [bind].
    split; [tauto|]. split; [intros e [= <-]; reflexivity | discriminate].
  - assert (Forall (λ v, feqb (v_price v) (of_int 0) = false) vehicles) as Hall.
    { apply Forall_forall. intros v Hv.
      destruct (feqb (v_price v) (of_int 0)) eqn:E; [|reflexivity].
      exfalso. apply Hnone, Exists_exists. eauto. }
    destruct (compare_loop now vehicles [] Hall) as (results & Hloop & Hrel).
    cbn [app] in Hloop.
    assert (Forall (λ d, score_key d = Ok (score_of d)) results) as Hkeys.
    { clear Hloop. induction Hrel as [|v d vs ds Hvd _ IH]; constructor.
      - eapply scored_from_key, Hvd.
      - apply IH.
        + intros Hex. apply Hnone. right. exact Hex.
        + apply Forall_cons in Hall as [_ ?]. assumption. }
    unfold compare_vehicles, sorted. rewrite Hloop. cbn [bind].
    rewrite (with_keys_ok score_key score_of results Hkeys). cbn [bind].
    split; [split; [discriminate | contradiction]|].
    split; [intros e; discriminate|].
    intros ranked [= <-].
    rewrite length_rev, length_map, sort_keyed_length, length_rev, length_map.
    symmetry. eapply Forall2_length, Hrel.
Qed.

End MarketValueErrors.

Lemma mileage_ignored_in_model_year_witness :
  2026 ≤ 2026 ∧
  calculate_market_value 2026 "ford" "Focus" 2026 20000%Q GOOD 0
  = calculate_market_value 2026 "ford" "Focus" 2026 20000%Q GOOD 250000.
Proof.
  split; [lia|].
  apply (mileage_ignored_in_model_year 2026 "ford" "Focus" 2026 20000%Q GOOD 0 250000).
  lia.
Defined.

Section MarketValueFactors.

Import Exact.
Local Open Scope Q_scope.

Lemma make_factor_bounds (make : string) :
  98 # 100 <= dict_get (MAKE_FACTORS (F:=Q)) (lower make) (dec 100 2) <= 125 # 100.
Proof.
  unfold dict_get, MAKE_FACTORS. generalize (lower make) as k. intros k.
  table_key k "toyota"; [vm_compute; split; discriminate|].
  table_key k "honda"; [vm_compute; split; discriminate|].
  table_key k "ford"; [vm_compute; split; discriminate|].
  table_key k "chevrolet"; [vm_compute; split; discriminate|].
  table_key k "bmw"; [vm_compute; split; discriminate|].
  table_key k "mercedes"; [vm_compute; split; discriminate|].
  table_key k "audi"; [vm_compute; split; discriminate|].
  table_key k "tesla"; [vm_compute; split; discriminate|].
  table_key k "default"; vm_compute; split; discriminate.
Qed.

Lemma condition_value_bounds (c : VehicleCondition) : 50 # 100 <= value (F:=Q) c <= 1.
Proof. destruct c; vm_compute; split; discriminate. Qed.

Lemma py_max_mono_r a b b' : b <= b' → py_max a b <= py_max a b'.
Proof.
  intros H.
  destruct (py_max_exact a b) as [[? ->]|[? ->]];
    destruct (py_max_exact a b') as [[? ->]|[? ->]]; lra.
Qed.

Lemma py_min_mono_r a b b' : b <= b' → py_min a b <= py_min a b'.
Proof.
  intros H.
  destruct (py_min_exact a b) as [[? ->]|[? ->]];
    destruct (py_min_exact a b') as [[? ->]|[? ->]]; lra.
Qed.

Lemma cap_mono f g : f <= g → cap f <= cap g.
Proof. intros H. unfold cap. apply py_max_mono_r, py_min_mono_r, H. Qed.

(** The capped factor as the middle of the three numbers. *)
Lemma cap_exact f :
  (f <= 7 # 10 ∧ cap f == 7 # 10) ∨ (7 # 10 < f < 13 # 10 ∧ cap f = f)
  ∨ (13 # 10 <= f ∧ cap f == 13 # 10).
Proof.
  unfold cap.
  destruct (py_min_exact (dec 13 1) f) as [[H1 ->]|[H1 ->]];
    match goal with
    | |- context [py_max ?a ?b] => destruct (py_max_exact a b) as [[H2 ->]|[H2 ->]]
    end;
    change (dec 13 1) with (13 # 10) in *; change (dec 7 1) with (7 # 10) in *.
  - right. left. split; [lra | reflexivity].
  - left. split; [lra | reflexivity].
  - right. right. split; [lra | reflexivity].
  - lra.
Qed.

Lemma inject_Z_pos (z : Z) : (0 < z)%Z → 0 < inject_Z z.
Proof. intros H. unfold Qlt. cbn. lia. Qed.

Lemma inject_Z_nonneg (z : Z) : (0 ≤ z)%Z → 0 <= inject_Z z.
Proof. intros H. unfold Qle. cbn. lia. Qed.

(** The uncapped factor of a vehicle with a positive age. *)
Lemma mileage_factor_positive_age (age mileage : Z) :
  (0 < age)%Z →
  ∃ f : Q, mileage_factor_of age mileage = Ok f ∧
           f * inject_Z (age * 12000) * 10
           == inject_Z (age * 12000) * 11 - inject_Z mileage.
Proof.
  intros Hage. rewrite mileage_factor_of_ok.
  assert (0 < age * 12000)%Z as Hpos by lia.
  apply Z.ltb_lt in Hpos as Hb. rewrite Hb.
  eexists. split; [reflexivity|]. exact_ops.
  change (dec 1 1) with (1 # 10). change (inject_Z 1) with 1.
  replace (age * 12000 - mileage)%Z with (age * 12000 + - mileage)%Z by lia.
  rewrite inject_Z_plus, inject_Z_opp. field.
  intros Hz. pose proof (inject_Z_pos _ Hpos). lra.
Qed.

(** X11.  Landmarks of the mileage adjustment of a vehicle with a positive
    age, where the expected mileage is [age * 12000]: at the expected
    mileage the factor applied is 1; for a mileage that is not negative it
    is at most 1.1, so the upper cap 1.3 is out of reach; and it is the lower
    cap 0.7 exactly from four times the expected mileage on. *)
Theorem mileage_factor_landmarks (age mileage : Z) :
  (0 < age)%Z →
  ∃ f : Q,
    mileage_factor_of age mileage = Ok f ∧
    (mileage = (age * 12000)%Z → cap f == 1) ∧
    ((0 ≤ mileage)%Z → cap f <= 11 # 10) ∧
    ((4 * (age * 12000) ≤ mileage)%Z ↔ cap f == 7 # 10).
Proof.
  intros Hage.
  destruct (mileage_factor_positive_age age mileage Hage) as (f & Hf & Heq).
  exists f. split; [exact Hf|].
  assert (0 < inject_Z (age * 12000)) as He by (apply inject_Z_pos; lia).
  set (e := inject_Z (age * 12000)) in *.
  split; [|split].
  - intros ->. fold e in Heq.
    assert (f == 1) as Hone by nra.
    destruct (cap_exact f) as [[? ?]|[[? ->]|[? ?]]]; [lra | exact Hone | lra].
  - intros Hm. pose proof (inject_Z_nonneg _ Hm) as Hq.
    assert (f <= 11 # 10) as Hle by nra.
    destruct (cap_exact f) as [[? ?]|[[? ->]|[? ?]]]; lra.
  - split.
    + intros Hm. assert (4 * e <= inject_Z mileage) as Hq.
      { subst e. change 4 with (inject_Z 4). rewrite <- inject_Z_mult, <- Zle_Qle.
        exact Hm. }
      assert (f <= 7 # 10) as Hle by nra.
      destruct (cap_exact f) as [[? ?]|[[? ->]|[? ?]]]; lra.
    + intros Hcap.
      assert (f <= 7 # 10) as Hle.
      { destruct (cap_exact f) as [[? ?]|[[? Hc]|[? ?]]]; [lra | rewrite Hc in Hcap; lra | lra]. }
      assert (4 * e <= inject_Z mileage) as Hq by nra.
      subst e. change 4 with (inject_Z 4) in Hq.
      rewrite <- inject_Z_mult, <- Zle_Qle in Hq. exact Hq.
Qed.

Lemma mileage_factor_landmarks_witness :
  (0 < 5)%Z ∧
  ∃ f : Q,
    mileage_factor_of 5 50000 = Ok f ∧
    (50000%Z = (5 * 12000)%Z → cap f == 1) ∧
    ((0 ≤ 50000)%Z → cap f <= 11 # 10) ∧
    ((4 * (5 * 12000) ≤ 50000)%Z ↔ cap f == 7 # 10).
Proof.
  split; [lia|].
  apply (mileage_factor_landmarks 5 50000). lia.
Defined.

End MarketValueFactors.

Section MarketValueOrder.

Import Exact.
Local Open Scope Q_scope.

Lemma Qmult_le_l_nonneg (a x y : Q) : 0 <= a → x <= y → a * x <= a * y.
Proof. intros. nra. Qed.

Lemma estimated_value_exact now make model year (bp : Q) cond mileage r :
  calculate_market_value now make model year bp cond mileage = Ok r →
  ∃ f, mileage_factor_of (now - year) mileage = Ok f ∧
       depreciated_value r
       = calculate_current_value (DepreciationModel_init now bp year) ∧
       estimated_value r
       = round_to 2 (depreciated_value r
                     * dict_get MAKE_FACTORS (lower make) (dec 100 2)
                     * value cond * cap f).
Proof.
  intros Hr.
  pose proof (calculate_market_value_inv _ _ _ _ _ _ _ _ Hr) as Hz.
  destruct (calculate_market_value_returns now make model year bp cond mileage Hz)
    as (r' & Hr' & _ & _ & Hdv & _).
  destruct (calculate_market_value_ok now make model year bp cond mileage Hz)
    as (r'' & f & Hr'' & Hf & _ & _ & Hest & _).
  assert (r' = r) as -> by congruence. assert (r'' = r) as -> by congruence.
  exists f. split; [exact Hf|]. split; [exact Hdv|].
  rewrite Hest, Hdv. reflexivity.
Qed.

Lemma positive_price_returns now make model year (bp : Q) cond mileage :
  0 < bp → ∃ r, calculate_market_value now make model year bp cond mileage = Ok r.
Proof.
  intros Hp.
  assert (feqb bp (of_int 0) = false) as Hz.
  { exact_ops. destruct (Qeq_bool bp (inject_Z 0)) eqn:E; [|reflexivity].
    apply Qeq_bool_iff in E. change (inject_Z 0) with 0 in E. lra. }
  destruct (calculate_market_value_returns now make model year bp cond mileage Hz)
    as (r & Hr & _). eauto.
Qed.

(** X12.  With everything else fixed, more mileage never raises the
    estimated value of a vehicle with a positive price. *)
Theorem more_mileage_never_raises_estimate
    (now : Z) (make model : string) (year : Z) (bp : Q)
    (cond : VehicleCondition) (mileage mileage' : Z) :
  0 < bp → (mileage ≤ mileage')%Z →
  ∃ r r',
    calculate_market_value now make model year bp cond mileage = Ok r ∧
    calculate_market_value now make model year bp cond mileage' = Ok r' ∧
    estimated_value r' <= estimated_value r.
Proof.
  intros Hp Hm.
  destruct (positive_price_returns now make model year bp cond mileage Hp) as [r Hr].
  destruct (positive_price_returns now make model year bp cond mileage' Hp) as [r' Hr'].
  exists r, r'. split; [exact Hr|]. split; [exact Hr'|].
  destruct (estimated_value_exact _ _ _ _ _ _ _ _ Hr) as (f & Hf & Hdv & ->).
  destruct (estimated_value_exact _ _ _ _ _ _ _ _ Hr') as (f' & Hf' & Hdv' & ->).
  rewrite Hdv, Hdv'.
  assert (0 <= calculate_current_value (DepreciationModel_init now bp year)) as H0.
  { apply current_value_nonneg. cbn. lra. }
  pose proof (make_factor_bounds make) as Hmf.
  pose proof (condition_value_bounds cond) as Hcf.
  assert (f' <= f) as Hff.
  { destruct (Z_lt_le_dec 0 (now - year)) as [Hage|Hage].
    - destruct (mileage_factor_positive_age (now - year) mileage Hage)
        as (g & Hg & Heq).
      destruct (mileage_factor_positive_age (now - year) mileage' Hage)
        as (g' & Hg' & Heq').
      assert (g = f) as -> by congruence. assert (g' = f') as -> by congruence.
      pose proof (inject_Z_pos ((now - year) * 12000) ltac:(lia)) as He.
      assert (inject_Z mileage <= inject_Z mileage') as Hq.
      { rewrite <- Zle_Qle. exact Hm. }
      nra.
    - rewrite mileage_factor_of_ok in Hf, Hf'.
      destruct (0 <? (now - year) * 12000)%Z eqn:Hpos;
        [apply Z.ltb_lt in Hpos; lia|].
      injection Hf as <-. injection Hf' as <-. lra. }
  pose proof (cap_mono _ _ Hff) as Hcap.
  apply round_to_mono.
  set (dv := calculate_current_value _) in *.
  set (mf := dict_get MAKE_FACTORS _ _) in *.
  assert (0 <= dv * mf * value cond) as Hprod.
  { apply Qmult_le_0_compat; [apply Qmult_le_0_compat|]; lra. }
  apply Qmult_le_l_nonneg; assumption.
Qed.

Lemma more_mileage_never_raises_estimate_witness :
  0 < 20000 ∧ (30000 ≤ 90000)%Z ∧
  ∃ r r',
    calculate_market_value 2026 "ford" "Focus" 2020 20000 GOOD 30000 = Ok r ∧
    calculate_market_value 2026 "ford" "Focus" 2020 20000 GOOD 90000 = Ok r' ∧
    estimated_value r' <= estimated_value r.
Proof.
  split; [reflexivity|]. split; [lia|].
  apply (more_mileage_never_raises_estimate 2026 "ford" "Focus" 2020 20000 GOOD
           30000 90000); [reflexivity | lia].
Defined.



End MarketValueOrder.

(** ** The price suggestion *)

Section PriceSuggestion.

Import Exact.
Local Open Scope Q_scope.

Lemma base_msrp_bounds (make : string) :
  (32000 ≤ dict_get base_msrp (lower make) 35000 ≤ 60000)%Z.
Proof.
  unfold dict_get, base_msrp. generalize (lower make) as k. intros k.
  table_key k "toyota"; [lia|].
  table_key k "honda"; [lia|].
  table_key k "ford"; [lia|].
  table_key k "chevrolet"; [lia|].
  table_key k "bmw"; [lia|].
  table_key k "mercedes"; [lia|].
  table_key k "audi"; [lia|].
  table_key k "tesla"; [lia|].
  table_key k "default"; lia.
Qed.

Lemma round_cents_int (z : Z) : round_to 2 (inject_Z z) == inject_Z z.
Proof.
  apply (round_cents_fixed _ (100 * z)%Z).
  unfold Qeq. cbn [Qnum Qden inject_Z]. lia.
Qed.

(** The value the suggestion starts from: between a tenth of the MSRP and
    the MSRP. *)
Lemma suggestion_base_bounds now (make : string) year :
  let msrp := dict_get base_msrp (lower make) 35000%Z in
  3200 <= calculate_current_value (DepreciationModel_init now (inject_Z msrp) year)
       <= 60000.
Proof.
  intros msrp. pose proof (base_msrp_bounds make) as Hm. fold msrp in Hm.
  assert (32000 <= inject_Z msrp <= 60000) as Hq.
  { split; [change 32000 with (inject_Z 32000) | change 60000 with (inject_Z 60000)];
      rewrite <- Zle_Qle; lia. }
  assert (0 < inject_Z msrp) as Hp by lra. assert (0 <= inject_Z msrp) as Hp0 by lra.
  pose proof (value_after_bounds (inject_Z msrp) (now - year) Hp0) as Hv.
  pose proof (floored_between (inject_Z msrp) _ Hp Hv) as [Hlo Hhi].
  assert (round_to 2 (inject_Z msrp * (10 # 100))
          <= calculate_current_value (DepreciationModel_init now (inject_Z msrp) year)
          <= round_to 2 (inject_Z msrp)) as Hr.
  { unfold calculate_current_value. exact_ops.
    split; apply round_to_mono; assumption. }
  pose proof (round_cents_int msrp) as Hint.
  assert (round_to 2 (inject_Z msrp * (10 # 100)) == inject_Z msrp * (10 # 100)) as Hten.
  { apply (round_cents_fixed _ (10 * msrp)%Z).
    unfold Qeq, Qmult. cbn [Qnum Qden inject_Z]. lia. }
  lra.
Qed.

(** X14.  [get_price_suggestion] returns for every make, year and
    condition, known or not.  Its band is ordered,
    [suggested_min <= suggested_price <= suggested_max], and lies between
    1520 and 63000; the result repeats the condition as given and reports
    the age [current_year - year]. *)
Theorem price_suggestion_band (now : Z) (make : string) (year : Z) (condition : string) :
  ∃ r : suggestion (F:=Q),
    get_price_suggestion now make year condition = Ok r ∧
    1520 <= suggested_min r ∧
    suggested_min r <= suggested_price r ∧
    suggested_price r <= suggested_max r ∧
    suggested_max r <= 63000 ∧
    condition_label r = condition ∧
    vehicle_age r = (now - year)%Z.
Proof.
  unfold get_price_suggestion. rewrite base_msrp_default. cbn [bind].
  eexists. split; [reflexivity|]. cbn [suggested_min suggested_price suggested_max
    condition_label vehicle_age age DepreciationModel_init].
  pose proof (suggestion_base_bounds now make year) as Hb. cbn zeta in Hb.
  exact_ops.
  set (base := calculate_current_value _) in *.
  pose proof (condition_value_bounds
                (dict_get condition_map (lower condition) GOOD)) as Hc.
  set (cf := value _) in *.
  assert (1600 <= base * cf <= 60000) as Ha by nra.
  change (dec 95 2) with (95 # 100). change (dec 105 2) with (105 # 100).
  assert (round_to 2 1520 == 1520) as H1 by reflexivity.
  assert (round_to 2 63000 == 63000) as H2 by reflexivity.
  pose proof (round_to_mono 2 1520 (base * cf * (95 # 100)) ltac:(lra)).
  pose proof (round_to_mono 2 (base * cf * (105 # 100)) 63000 ltac:(lra)).
  pose proof (round_to_mono 2 (base * cf * (95 # 100)) (base * cf) ltac:(lra)).
  pose proof (round_to_mono 2 (base * cf) (base * cf * (105 # 100)) ltac:(lra)).
  repeat split; try reflexivity; lra.
Qed.

(** X15.  For one make and year, a better condition never lowers the
    suggestion: the suggested price, minimum and maximum for ['poor'],
    ['fair'], ['good'] and ['excellent'] stand in that order. *)
Theorem better_condition_never_lowers_suggestion (now : Z) (make : string) (year : Z) :
  ∃ poor fair good excellent : suggestion (F:=Q),
    get_price_suggestion now make year "poor" = Ok poor ∧
    get_price_suggestion now make year "fair" = Ok fair ∧
    get_price_suggestion now make year "good" = Ok good ∧
    get_price_suggestion now make year "excellent" = Ok excellent ∧
    (suggested_price poor <= suggested_price fair
     ∧ suggested_price fair <= suggested_price good
     ∧ suggested_price good <= suggested_price excellent) ∧
    (suggested_min poor <= suggested_min fair
     ∧ suggested_min fair <= suggested_min good
     ∧ suggested_min good <= suggested_min excellent) ∧
    (suggested_max poor <= suggested_max fair
     ∧ suggested_max fair <= suggested_max good
     ∧ suggested_max good <= suggested_max excellent).
Proof.
  unfold get_price_suggestion. rewrite base_msrp_default. cbn [bind].
  do 4 eexists. do 4 (split; [reflexivity|]).
  cbn [suggested_min suggested_price suggested_max].
  pose proof (suggestion_base_bounds now make year) as Hb. cbn zeta in Hb.
  set (base := calculate_current_value _) in *.
  change (dict_get condition_map (lower "poor") GOOD) with POOR.
  change (dict_get condition_map (lower "fair") GOOD) with FAIR.
  change (dict_get condition_map (lower "good") GOOD) with GOOD.
  change (dict_get condition_map (lower "excellent") GOOD) with EXCELLENT.
  exact_ops. cbn [value].
  change (dec 50 2) with (50 # 100). change (dec 70 2) with (70 # 100).
  change (dec 85 2) with (85 # 100). change (dec 10 1) with (10 # 10).
  change (dec 95 2) with (95 # 100). change (dec 105 2) with (105 # 100).
  repeat split; apply round_to_mono; lra.
Qed.

End PriceSuggestion.

Section CaseInsensitive.

Context {F : Type} {num : Number F}.




End CaseInsensitive.

(** * vehicle_manager.py *)

(** ** The collection of vehicles *)

Section ManagerProperties.

Import Vehicles.
Context {F : Type} {num : Number F} {order : NumberOrder F}.
Implicit Types (self : list (Vehicle (F:=F))) (v : Vehicle (F:=F)) (i j : Z).

Lemma in_range_spec self i : in_range self i = true ↔ 0 ≤ i < count self.
Proof. unfold in_range, count. rewrite andb_true_iff, Z.leb_le, Z.ltb_lt. tauto. Qed.

Lemma get_vehicle_in self i :
  0 ≤ i < count self → get_vehicle self i = self !! Z.to_nat i.
Proof.
  intros Hi. unfold get_vehicle.
  apply in_range_spec in Hi. rewrite Hi. reflexivity.
Qed.

Lemma get_vehicle_out self i : ¬ (0 ≤ i < count self) → get_vehicle self i = None.
Proof.
  intros Hi. unfold get_vehicle.
  destruct (in_range self i) eqn:E; [|reflexivity].
  apply in_range_spec in E. contradiction.
Qed.

(** X17.  [get_vehicle] finds a vehicle exactly at the indices
    [0 <= index < count()]; a negative index finds nothing, it does not
    count from the end of the list. *)
Theorem get_vehicle_range self i :
  is_Some (get_vehicle self i) ↔ 0 ≤ i < count self.
Proof.
  split.
  - intros Hsome. destruct (decide (0 ≤ i < count self)) as [|Hout]; [assumption|].
    rewrite get_vehicle_out in Hsome by exact Hout. destruct Hsome as [? [=]].
  - intros Hi. rewrite get_vehicle_in by exact Hi.
    apply lookup_lt_is_Some. unfold count in Hi. lia.
Qed.

(** X18.  [add_vehicle] of a [Vehicle] answers [True] and appends it: the
    count grows by one, the vehicle stands at the index of the old count,
    and every other index reads as before.  Anything that is not a
    [Vehicle] is refused with [False] and the collection is unchanged. *)
Theorem add_vehicle_appends self v :
  (let (added, self') := add_vehicle self (a_vehicle v) in
   added = true ∧
   count self' = count self + 1 ∧
   get_vehicle self' (count self) = Some v ∧
   ∀ i, i ≠ count self → get_vehicle self' i = get_vehicle self i) ∧
  add_vehicle self not_a_vehicle = (false, self).
Proof.
  split; [|reflexivity]. cbn [add_vehicle].
  assert (count (self ++ [v]) = count self + 1) as Hc.
  { unfold count. rewrite length_app. cbn [length]. lia. }
  split; [reflexivity|]. split; [exact Hc|]. split.
  - rewrite get_vehicle_in by (unfold count in *; lia).
    unfold count. rewrite Nat2Z.id. apply list_lookup_middle. reflexivity.
  - intros i Hi. destruct (decide (0 ≤ i < count self)) as [Hin|Hout].
    + rewrite !get_vehicle_in by lia.
      apply lookup_app_l. unfold count in Hin. lia.
    + rewrite !get_vehicle_out by lia. reflexivity.
Qed.

(** X19.  [remove_vehicle] at an index inside the collection returns the
    vehicle [get_vehicle] finds there and takes it out: the count drops by
    one, the vehicles before the index keep their indices and those after
    it move down by one.  At any other index, negative ones included, it
    returns [None] and changes nothing. *)
Theorem remove_vehicle_shifts self i :
  (0 ≤ i < count self →
   ∃ v self',
     remove_vehicle self i = (Some v, self') ∧
     get_vehicle self i = Some v ∧
     count self' = count self - 1 ∧
     (∀ j, j < i → get_vehicle self' j = get_vehicle self j) ∧
     (∀ j, i ≤ j → get_vehicle self' j = get_vehicle self (j + 1))) ∧
  (¬ (0 ≤ i < count self) → remove_vehicle self i = (None, self)).
Proof.
  split.
  - intros Hi. unfold remove_vehicle.
    apply in_range_spec in Hi as Hb. rewrite Hb.
    assert (is_Some (self !! Z.to_nat i)) as [v Hv].
    { apply lookup_lt_is_Some. unfold count in Hi. lia. }
    rewrite Hv. exists v, (delete (Z.to_nat i) self).
    assert (count (delete (Z.to_nat i) self) = count self - 1) as Hc.
    { unfold count in *. rewrite length_delete by eauto. lia. }
    split; [reflexivity|]. split; [rewrite get_vehicle_in by exact Hi; exact Hv|].
    split; [exact Hc|]. split.
    + intros j Hj. destruct (decide (0 ≤ j)) as [Hj0|Hneg].
      * rewrite !get_vehicle_in by lia.
        apply list_lookup_delete_lt. lia.
      * rewrite !get_vehicle_out by lia. reflexivity.
    + intros j Hj. destruct (decide (j < count self - 1)) as [Hlt|Hge].
      * rewrite !get_vehicle_in by lia.
        rewrite list_lookup_delete_ge by lia. f_equal. lia.
      * rewrite !get_vehicle_out by lia. reflexivity.
  - intros Hout. unfold remove_vehicle.
    destruct (in_range self i) eqn:E; [|reflexivity].
    apply in_range_spec in E. contradiction.
Qed.

(** X20.  Removing at the index of the old count right after an
    [add_vehicle] gives the vehicle back and restores the collection. *)
Theorem remove_after_add self v :
  remove_vehicle (add_vehicle self (a_vehicle v)).2 (count self) = (Some v, self).
Proof.
  cbn [add_vehicle snd]. unfold remove_vehicle.
  assert (in_range (self ++ [v]) (count self) = true) as ->.
  { apply in_range_spec. unfold count. rewrite length_app. cbn [length]. lia. }
  unfold count. rewrite Nat2Z.id.
  rewrite list_lookup_middle by reflexivity. f_equal.
  rewrite delete_middle. apply app_nil_r.
Qed.

End ManagerProperties.

Section FilterProperties.

Import Vehicles.
Context {F : Type} {num : Number F} {order : NumberOrder F}.
Implicit Types (self : list (Vehicle (F:=F))) (v : Vehicle (F:=F)).

Lemma elem_of_list_filter {A : Type} (f : A → bool) (l : list A) (x : A) :
  x ∈ List.filter f l ↔ x ∈ l ∧ f x = true.
Proof. rewrite !list_elem_of_In. apply filter_In. Qed.

Lemma sublist_list_filter {A : Type} (f : A → bool) (l : list A) :
  sublist (List.filter f l) l.
Proof.
  induction l as [|x l IH]; cbn [List.filter]; [constructor|].
  destruct (f x); [apply sublist_skip | apply sublist_cons]; exact IH.
Qed.




End FilterProperties.

Section PriceFilter.

Import Vehicles.
Local Open Scope Q_scope.

(** X23.  In exact arithmetic the price filter returns, in the order of
    the collection, exactly the vehicles whose price lies in the closed
    range. *)
Theorem price_filter_selects (self : list (Vehicle (F:=Q))) (min_price max_price : Q) :
  (∀ v, v ∈ filter_by_price_range self min_price max_price
        ↔ v ∈ self ∧ min_price <= price v <= max_price) ∧
  sublist (filter_by_price_range self min_price max_price) self.
Proof.
  split; [|apply sublist_list_filter].
  intros v. unfold filter_by_price_range.
  rewrite elem_of_list_filter, andb_true_iff. cbn [fleb exact_order].
  rewrite !Qle_bool_iff. reflexivity.
Qed.

End PriceFilter.

(** ** Counting by key *)

Section Tally.

Import Vehicles.
Context {K : Type} `{Countable K}.
Context (le : relation K) `{!RelDecision le} `{!PartialOrder le} `{!Total le}.

Lemma tally_snoc (keys : list K) (k : K) :
  tally (keys ++ [k]) = <[ k := dict_get (tally keys) k 0 + 1 ]> (tally keys).
Proof. unfold tally. rewrite foldl_snoc. reflexivity. Qed.

Lemma occurrences_snoc (k k' : K) (keys : list K) :
  occurrences k' (keys ++ [k])
  = occurrences k' keys + (if decide (k = k') then 1 else 0).
Proof.
  unfold occurrences. rewrite List.filter_app, length_app. cbn [List.filter].
  destruct (decide (k = k')) as [->|Hne].
  - rewrite bool_decide_eq_true_2 by reflexivity. cbn [length]. lia.
  - rewrite bool_decide_eq_false_2 by exact Hne. cbn [length]. lia.
Qed.

Lemma occurrences_nonneg (k : K) (keys : list K) : 0 ≤ occurrences k keys.
Proof. unfold occurrences. lia. Qed.

Lemma tally_lookup (keys : list K) (k : K) :
  tally keys !! k
  = if decide (occurrences k keys = 0) then None else Some (occurrences k keys).
Proof.
  induction keys as [|x keys IH] using rev_ind.
  - reflexivity.
  - rewrite tally_snoc, occurrences_snoc.
    pose proof (occurrences_nonneg k keys) as Hk.
    destruct (decide (x = k)) as [->|Hne].
    + rewrite lookup_insert_eq. unfold dict_get. rewrite IH.
      destruct (decide (occurrences k keys = 0)) as [->|?];
        destruct (decide _); try lia; reflexivity.
    + rewrite lookup_insert_ne by exact Hne. rewrite IH, Z.add_0_r. reflexivity.
Qed.

Lemma sum_ints_from (a : Z) (xs : list Z) : foldl Z.add a xs = a + sum_ints xs.
Proof.
  unfold sum_ints. revert a. induction xs as [|x xs IH]; intros a; cbn [foldl]; [lia|].
  rewrite (IH (a + x)), (IH (0 + x)). lia.
Qed.

Lemma sum_ints_cons (x : Z) (xs : list Z) : sum_ints (x :: xs) = x + sum_ints xs.
Proof. unfold sum_ints at 1. cbn [foldl]. apply sum_ints_from. Qed.

Lemma sum_ints_perm (xs ys : list Z) : xs ≡ₚ ys → sum_ints xs = sum_ints ys.
Proof.
  induction 1 as [|x xs ys _ IH|x y xs|xs ys zs _ IH1 _ IH2].
  - reflexivity.
  - rewrite !sum_ints_cons, IH. reflexivity.
  - rewrite !sum_ints_cons. lia.
  - congruence.
Qed.

Lemma tally_total (keys : list K) :
  sum_ints (map snd (map_to_list (tally keys))) = Z.of_nat (length keys).
Proof.
  induction keys as [|k keys IH] using rev_ind.
  - unfold tally. cbn [foldl]. rewrite map_to_list_empty. reflexivity.
  - rewrite tally_snoc, length_app. cbn [length].
    replace (Z.of_nat (length keys + 1)) with (Z.of_nat (length keys) + 1) by lia.
    set (m := tally keys) in *. unfold dict_get.
    destruct (m !! k) as [c|] eqn:Hk.
    + rewrite <- insert_delete_eq.
      rewrite (sum_ints_perm _ (map snd ((k, c + 1) :: map_to_list (delete k m)))).
      2:{ apply Permutation_map, map_to_list_insert, lookup_delete_eq. }
      rewrite <- IH.
      rewrite (sum_ints_perm (map snd (map_to_list m))
                 (map snd ((k, c) :: map_to_list (delete k m)))).
      2:{ apply Permutation_map. symmetry. apply map_to_list_delete, Hk. }
      cbn [map snd]. rewrite !sum_ints_cons. lia.
    + rewrite (sum_ints_perm _ (map snd ((k, 0 + 1) :: map_to_list m))).
      2:{ apply Permutation_map, map_to_list_insert, Hk. }
      cbn [map snd]. rewrite sum_ints_cons, IH. lia.
Qed.

#[local] Instance item_le_total : Total (item_le le).
Proof.
  intros [k1 c1] [k2 c2]. unfold item_le. cbn [fst snd].
  destruct (decide (k1 = k2)) as [->|Hne].
  - destruct (Z.le_ge_cases c1 c2); [left | right]; right; split; auto.
  - destruct (total le k1 k2); [left | right]; left; split; auto.
Qed.

#[local] Instance item_le_trans : Transitive (item_le le).
Proof.
  intros [k1 c1] [k2 c2] [k3 c3]. unfold item_le. cbn [fst snd].
  intros [[Hne12 H12]|[-> H12]] [[Hne23 H23]|[-> H23]].
  - left. split; [|etrans; eassumption].
    intros ->. apply Hne12. apply (anti_symm le); assumption.
  - left. split; assumption.
  - left. split; assumption.
  - right. split; [reflexivity | lia].
Qed.

(** The items of a tally as [sorted] orders them. *)
Lemma sorted_tally_spec (keys : list K) :
  let result := sorted_items le (tally keys) in
  StronglySorted (λ a b, le a.1 b.1 ∧ a.1 ≠ b.1) result ∧
  (∀ k c, (k, c) ∈ result ↔ c = occurrences k keys ∧ 0 < c) ∧
  sum_ints (map snd result) = Z.of_nat (length keys).
Proof.
  intros result.
  assert (result ≡ₚ map_to_list (tally keys)) as Hperm.
  { apply merge_sort_Permutation. }
  split; [|split].
  - assert (StronglySorted (item_le le) result) as Hsorted.
    { apply StronglySorted_merge_sort; apply _. }
    assert (NoDup (map fst result)) as Hnodup.
    { rewrite Hperm. apply (NoDup_fst_map_to_list (tally keys)). }
    clearbody result. clear Hperm.
    induction Hsorted as [|a l _ IH Hall]; [constructor|].
    cbn [map] in Hnodup. apply NoDup_cons in Hnodup as [Hnotin Hnodup].
    constructor; [apply IH, Hnodup|].
    apply Forall_forall. intros b Hb.
    rewrite Forall_forall in Hall. specialize (Hall b Hb).
    assert (a.1 ≠ b.1) as Hne.
    { intros Heq. apply Hnotin. rewrite Heq.
      apply list_elem_of_In, in_map, list_elem_of_In, Hb. }
    destruct Hall as [[_ Hle]|[Heq _]]; [split; assumption | contradiction].
  - intros k c. rewrite Hperm, elem_of_map_to_list, tally_lookup.
    pose proof (occurrences_nonneg k keys).
    destruct (decide (occurrences k keys = 0)); split.
    + discriminate.
    + intros [-> ?]. lia.
    + intros [= <-]. split; [reflexivity | lia].
    + intros [-> _]. reflexivity.
  - rewrite (sum_ints_perm _ (map snd (map_to_list (tally keys)))).
    + apply tally_total.
    + apply Permutation_map, Hperm.
Qed.

End Tally.

(** ** The analytics *)

Section AnalyticsCounts.

Import Vehicles.
Context {F : Type} {num : Number F} {order : NumberOrder F}.
Implicit Types (self : list (vehicle_dict (F:=F))).

Lemma strongly_sorted_weaken {A : Type} (R R' : relation A) (l : list A) :
  (∀ a b, R a b → R' a b) → StronglySorted R l → StronglySorted R' l.
Proof.
  intros Himpl. induction 1 as [|a l _ IH Hall]; constructor; [exact IH|].
  eapply Forall_impl; [exact Hall | apply Himpl].
Qed.

(** X24.  [get_vehicles_by_year] lists the years in strictly ascending
    order, each with the number of vehicles of that year, a vehicle without
    a year counting under 0; a year is listed only if some vehicle has it,
    and the numbers add up to the number of vehicles. *)
Theorem vehicles_by_year_counts self :
  let years := map (λ v, default_to 0 (d_year v)) self in
  let result := get_vehicles_by_year self in
  StronglySorted (λ a b, a.1 < b.1) result ∧
  (∀ y c, (y, c) ∈ result ↔ c = occurrences y years ∧ 0 < c) ∧
  sum_ints (map snd result) = Z.of_nat (length self).
Proof.
  intros years result.
  destruct (sorted_tally_spec Z.le years) as (Hsorted & Hmem & Hsum).
  split; [|split].
  - eapply strongly_sorted_weaken; [|exact Hsorted].
    intros a b [Hle Hne]. cbn beta in *. lia.
  - exact Hmem.
  - transitivity (Z.of_nat (length years)); [exact Hsum|].
    unfold years. rewrite length_map. reflexivity.
Qed.

(** X25.  [get_vehicles_by_make] lists the makes, as written, in strictly
    ascending order, each with the number of vehicles of that make, a
    vehicle without a make counting under ['Unknown']; a make is listed
    only if some vehicle has it, and the numbers add up to the number of
    vehicles. *)
Theorem vehicles_by_make_counts self :
  let makes := map (λ v, default_to "Unknown" (d_make v)) self in
  let result := get_vehicles_by_make self in
  StronglySorted (λ a b, String.le a.1 b.1 ∧ a.1 ≠ b.1) result ∧
  (∀ m c, (m, c) ∈ result ↔ c = occurrences m makes ∧ 0 < c) ∧
  sum_ints (map snd result) = Z.of_nat (length self).
Proof.
  intros makes result.
  destruct (sorted_tally_spec String.le makes) as (Hsorted & Hmem & Hsum).
  split; [exact Hsorted|]. split; [exact Hmem|].
  transitivity (Z.of_nat (length makes)); [exact Hsum|].
  unfold makes. rewrite length_map. reflexivity.
Qed.

End AnalyticsCounts.

Section AnalyticsExact.

Import Vehicles Exact.
Local Open Scope Q_scope.
Implicit Types (self : list (vehicle_dict (F:=Q))).

Lemma min_of_spec (rest : list Q) (first : Q) :
  min_of first rest ∈ first :: rest ∧
  min_of first rest <= first ∧
  Forall (λ x, min_of first rest <= x) rest.
Proof.
  revert first. induction rest as [|x rest IH]; intros first.
  - cbn. split; [left|split; [lra|constructor]].
  - assert (min_of first (x :: rest)
            = min_of (if ltb x first then x else first) rest) as -> by reflexivity.
    destruct (ltb x first) eqn:E.
    + destruct (IH x) as (Hin & Hle & Hall).
      apply ltb_lt in E. split; [|split].
      * right. exact Hin.
      * lra.
      * constructor; assumption.
    + destruct (IH first) as (Hin & Hle & Hall).
      assert (first <= x) as Hfx.
      { destruct (Qlt_le_dec x first) as [Hl|Hg]; [|exact Hg].
        apply ltb_lt in Hl. congruence. }
      split; [|split].
      * apply elem_of_cons in Hin as [->|Hin]; [left | right; right; exact Hin].
      * exact Hle.
      * constructor; [lra | exact Hall].
Qed.

Lemma max_of_spec (rest : list Q) (first : Q) :
  max_of first rest ∈ first :: rest ∧
  first <= max_of first rest ∧
  Forall (λ x, x <= max_of first rest) rest.
Proof.
  revert first. induction rest as [|x rest IH]; intros first.
  - cbn. split; [left|split; [lra|constructor]].
  - assert (max_of first (x :: rest)
            = max_of (if ltb first x then x else first) rest) as -> by reflexivity.
    destruct (ltb first x) eqn:E.
    + destruct (IH x) as (Hin & Hle & Hall).
      apply ltb_lt in E. split; [|split].
      * right. exact Hin.
      * lra.
      * constructor; assumption.
    + destruct (IH first) as (Hin & Hle & Hall).
      assert (x <= first) as Hfx.
      { destruct (Qlt_le_dec first x) as [Hl|Hg]; [|exact Hg].
        apply ltb_lt in Hl. congruence. }
      split; [|split].
      * apply elem_of_cons in Hin as [->|Hin]; [left | right; right; exact Hin].
      * exact Hle.
      * constructor; [lra | exact Hall].
Qed.

Lemma price_range_spec_aux self :
  self ≠ [] →
  range_min (get_price_range self) ∈ prices self ∧
  range_max (get_price_range self) ∈ prices self ∧
  Forall (λ p, range_min (get_price_range self) <= p
               <= range_max (get_price_range self)) (prices self).
Proof.
  destruct self as [|v vs]; [congruence|]. intros _.
  cbn [get_price_range]. cbn zeta. cbn [range_min range_max].
  change (prices (v :: vs)) with (default_to (of_int 0) (d_price v) :: prices vs).
  set (first := default_to (of_int 0) (d_price v)).
  destruct (min_of_spec (prices vs) first) as (Hmin & Hminle & Hminall).
  destruct (max_of_spec (prices vs) first) as (Hmax & Hmaxle & Hmaxall).
  split; [exact Hmin|]. split; [exact Hmax|].
  constructor; [lra|].
  rewrite Forall_forall in Hminall, Hmaxall. apply Forall_forall.
  intros p Hp. split; [apply Hminall | apply Hmaxall]; exact Hp.
Qed.

(** X26.  [get_price_range] of a list that is not empty returns two of its
    prices, a missing price counting as 0: none of the prices is below
    [min] and none above [max].  Of the empty list it returns 0 and 0. *)
Theorem price_range_bounds self :
  (self ≠ [] →
   let r := get_price_range self in
   range_min r ∈ prices self ∧
   range_max r ∈ prices self ∧
   Forall (λ p, range_min r <= p <= range_max r) (prices self)) ∧
  get_price_range (F:=Q) [] = {| range_min := 0; range_max := 0 |}.
Proof.
  split; [|reflexivity]. intros Hne r. apply price_range_spec_aux, Hne.
Qed.


Lemma length_pos_Q {A : Type} (x : A) (xs : list A) :
  0 < inject_Z (Z.of_nat (length (x :: xs))).
Proof. apply inject_Z_pos. cbn [length]. lia. Qed.


End AnalyticsExact.

Section AnalyticsSummary.

Import Vehicles Exact.
Local Open Scope Q_scope.
Implicit Types (self : list (vehicle_dict (F:=Q))).



Lemma average_age_exact now self :
  self ≠ [] →
  get_average_age now self
  = Ok (round_to 1 (inject_Z (sum_ints (ages now self))
                    / inject_Z (Z.of_nat (length self)))).
Proof.
  destruct self as [|v vs]; [congruence|]. intros _.
  unfold get_average_age, int_truediv.
  destruct (Z.of_nat (length (v :: vs)) =? 0)%Z eqn:E;
    [apply Z.eqb_eq in E; cbn [length] in E; lia|].
  reflexivity.
Qed.



(** X29.  [get_summary] never raises, for the empty list either.  Its
    [total_vehicles] is the length of the list, the counts of [by_make] and
    those of [by_year] each add up to it, and the other entries are what
    the single methods return. *)
Theorem summary_totals_agree (now : Z) self :
  ∃ s, get_summary now self = Ok s ∧
       total_vehicles s = Z.of_nat (length self) ∧
       sum_ints (map snd (by_make s)) = total_vehicles s ∧
       sum_ints (map snd (by_year s)) = total_vehicles s ∧
       get_average_price self = Ok (average_price s) ∧
       get_average_age now self = Ok (average_age s) ∧
       summary_price_range s = get_price_range self.
Proof.
  assert (∃ a, get_average_price self = Ok a) as [a Ha].
  { destruct self as [|v vs]; [eexists; reflexivity|].
    pose proof (length_pos_Q v vs) as Hn.
    unfold get_average_price, truediv. exact_ops.
    destruct (Qeq_bool _ _) eqn:E.
    { apply Qeq_bool_iff in E. change (inject_Z 0) with 0 in E. lra. }
    eexists. reflexivity. }
  assert (∃ b, get_average_age now self = Ok b) as [b Hb].
  { destruct self as [|v vs]; [eexists; reflexivity|].
    rewrite average_age_exact by discriminate. eexists. reflexivity. }
  unfold get_summary. rewrite Ha, Hb. cbn [bind].
  eexists. split; [reflexivity|].
  cbn [total_vehicles by_make by_year average_price average_age summary_price_range].
  split; [reflexivity|].
  destruct (sorted_tally_spec String.le
              (map (λ v, default_to "Unknown" (d_make v)) self)) as (_ & _ & Hmake).
  destruct (sorted_tally_spec Z.le
              (map (λ v, default_to 0%Z (d_year v)) self)) as (_ & _ & Hyear).
  rewrite length_map in Hmake, Hyear.
  repeat split; assumption.
Qed.

End AnalyticsSummary.
